(** * BrainSimulator: the discrete-latent variational autoencoder

    A shallow embedding of [BrainSimulator/models/vae.py] and the proofs of
    its shape plan, its padding algebra, the shapes of its forward pass
    and its sampler.

    Conventions of the embedding.
    - Python integers are [Z].
    - [image_height / total_scaling] is Python's true division of two
      integers, a binary64 number: [Py.true_div_b64] is the correctly
      rounded quotient and [init_b64] the constructor that uses it.
      [Py.true_div] is the exact quotient and [init] the constructor
      that uses it; the two constructors build the same object for image
      dimensions up to 2^53 (lemma [init_b64_exact]) and differ at
      2^53 + 1.
    - Tensor entries are real numbers ([R]).  Softmax and the smoothing
      are written in exact real arithmetic where torch computes in
      float32; no statement below gives the value of an entry they
      produce, only shapes and sizes.  The sigmoid is a parameter with the
      range of its float32 values.
    - A tensor is a shape with its entries in row-major order.
    - The object is threaded through the methods as a state; a tensor
      operation that raises ends the method with [None].
    - [CNNLayer], [DeCNNLayer], [MLP] and [STMNsampler] live in modules of
      the repository that are not part of the sources read here; they, and
      torch's [MaxPool2d], are parameters of the model with their shape
      contracts (class [Layers]).  Module [STMN] is a model of the sampler
      written from the specification. *)

From Stdlib Require Import ZArith QArith Qround List Bool Lia.
From Stdlib Require Import Reals Lra.
Import ListNotations.

Local Open Scope Z_scope.

(** ** Numeric primitives used by the constructor *)

Module Py.

(** [a / b] on two Python integers, read exactly: the quotient as a
    rational.  It is what Python computes whenever the quotient is a
    binary64 number (lemma [true_div_b64_exact] for the divisor 64 and
    dividends up to 2^53). *)
Definition true_div (a b : Z) : Q := (inject_Z a / inject_Z b)%Q.

(** The integer nearest to [n / d] for [0 <= n] and [0 < d], a tie going
    to the even one. *)
Definition nearest_even (n d : Z) : Z :=
  let q := n / d in
  let r := n mod d in
  if 2 * r <? d then q
  else if d <? 2 * r then q + 1
  else if Z.even q then q else q + 1.

(** [n / d] with the numerator or the denominator scaled by [2^|e|]:
    the fraction [a / (b * 2^e)]. *)
Definition scaled (a b e : Z) : Z * Z :=
  if 0 <=? e then (a, b * 2 ^ e) else (a * 2 ^ (- e), b).

(** The binary64 number nearest to [a / b] for positive [a] and [b], as a
    53-bit mantissa and an exponent: the exponent is chosen so that the
    scaled quotient lies in [2^52, 2^53), and the mantissa is that
    quotient rounded to nearest, ties to even. *)
Definition div_pos (a b : Z) : Z * Z :=
  let e0 := Z.log2 a - Z.log2 b - 53 in
  let (n0, d0) := scaled a b e0 in
  let e := if n0 / d0 <? 2 ^ 53 then e0 else e0 + 1 in
  let (n, d) := scaled a b e in
  (nearest_even n d, e).

(** The rational [m * 2^e]. *)
Definition dyadic (m e : Z) : Q :=
  if 0 <=? e then inject_Z (m * 2 ^ e) else Qmake m (Z.to_pos (2 ^ (- e))).

(** [a / b] on two Python integers, as executed: Python returns the
    binary64 number nearest to the quotient (ties to even).  The exponent
    range of binary64 is not modelled: Python raises [OverflowError] for
    a quotient of 2^1024 and more, and [ZeroDivisionError] for [b = 0],
    where this returns 0. *)
Definition true_div_b64 (a b : Z) : Q :=
  if (a =? 0) || (b =? 0) then 0%Q
  else
    let (m, e) := div_pos (Z.abs a) (Z.abs b) in
    dyadic (Z.sgn a * Z.sgn b * m) e.

(** [np.ceil]. *)
Definition np_ceil (q : Q) : Z := Qceiling q.

(** [a // b]: floor division; [Z.div] rounds towards minus infinity for a
    positive divisor, as Python does. *)
Definition floor_div (a b : Z) : Z := a / b.

(** [int(np.prod(l))]. *)
Definition np_prod (l : list Z) : Z := fold_right Z.mul 1 l.

End Py.

(** ** Tensors

    A tensor is its shape and its entries in row-major order, as a
    contiguous torch tensor is. *)

Record tensor : Type := mkTensor {
  shape : list nat;
  data : list R
}.

Definition numel (s : list nat) : nat := fold_right Nat.mul 1%nat s.

(** The invariant every torch tensor satisfies. *)
Definition wf (x : tensor) : Prop := length (data x) = numel (shape x).

(** [chunks n sz l]: the first [n] consecutive blocks of [sz] entries. *)
Fixpoint chunks {A : Type} (n sz : nat) (l : list A) : list (list A) :=
  match n with
  | O => []
  | S n' => firstn sz l :: chunks n' sz (skipn sz l)
  end.

Module Py_slice.

(** How Python turns one bound of [start:stop] into a position of a
    sequence of length [len]. *)
Definition bound (len i : Z) : Z :=
  if i <? 0 then Z.max (i + len) 0 else Z.min i len.

Definition start_of (len : Z) (start : option Z) : Z :=
  match start with None => 0 | Some i => bound len i end.

Definition stop_of (len : Z) (stop : option Z) : Z :=
  match stop with None => len | Some i => bound len i end.

(** [l[start:stop]]. *)
Definition slice {A : Type} (start stop : option Z) (l : list A) : list A :=
  let len := Z.of_nat (length l) in
  let s := start_of len start in
  let e := stop_of len stop in
  firstn (Z.to_nat (e - s)) (skipn (Z.to_nat s) l).

(** The length of [l[start:stop]] when [l] has [n] entries. *)
Definition slice_len (start stop : option Z) (n : nat) : nat :=
  let len := Z.of_nat n in
  let s := start_of len start in
  let e := stop_of len stop in
  Nat.min (Z.to_nat (e - s)) (n - Z.to_nat s).

End Py_slice.

Module Torch.

(** [x.shape[0]]. *)
Definition shape0 (x : tensor) : Z := Z.of_nat (nth 0 (shape x) 0%nat).

(** [l] without its first [a] and its last [b] entries. *)
Definition crop {A : Type} (a b : nat) (l : list A) : list A :=
  firstn (length l - a - b) (skipn a l).

(** One row with [l] entries [v] before it and [r] after it. *)
Definition pad_row (l r : nat) (v : R) (row : list R) : list R :=
  repeat v l ++ row ++ repeat v r.

(** The rows of one image, each of [w] entries, with [t] rows of [v] above
    them, [b] below them, and every row padded. *)
Definition pad_rows (l r t b : nat) (v : R) (w : nat) (rows : list (list R))
  : list R :=
  let blank := repeat v (l + w + r) in
  concat (repeat blank t ++ map (pad_row l r v) rows ++ repeat blank b).

(** One [h] by [w] image padded. *)
Definition pad_image (l r t b : nat) (v : R) (h w : nat) (img : list R)
  : list R :=
  pad_rows l r t b v w (chunks h w img).

(** [F.pad(x, (left, right, top, bottom), mode='constant', value=v)]: the
    last dimension grows by [left] and [right], the one before it by [top]
    and [bottom].  A negative amount crops: torch first narrows the tensor
    by that many entries on that side, and refuses to narrow by more than
    the dimension holds.  A tensor of rank below 2 is refused. *)
Definition pad (x : tensor) (left right top bottom : Z) (v : R)
  : option tensor :=
  match rev (shape x) with
  | w :: h :: rpre =>
      let cl := Z.to_nat (- left) in
      let cr := Z.to_nat (- right) in
      let ct := Z.to_nat (- top) in
      let cb := Z.to_nat (- bottom) in
      if ((cl + cr <=? w) && (ct + cb <=? h))%nat then
        let l := Z.to_nat left in
        let r := Z.to_nat right in
        let t := Z.to_nat top in
        let b := Z.to_nat bottom in
        let h' := (h - ct - cb)%nat in
        let w' := (w - cl - cr)%nat in
        let images := chunks (numel (rev rpre)) (h * w) (data x) in
        let padded img :=
          pad_rows l r t b v w'
                   (map (crop cl cr) (crop ct cb (chunks h w img))) in
        Some (mkTensor (rev rpre ++ [(t + h' + b)%nat; (l + w' + r)%nat])
                       (concat (map padded images)))
      else None
  | _ => None
  end.

(** [x[:, ..., :, start:stop]] with the slice at dimension [k]; an index
    with more entries than the tensor has dimensions is refused. *)
Definition slice_dim (k : nat) (start stop : option Z) (x : tensor)
  : option tensor :=
  if (k <? length (shape x))%nat then
    let outer := numel (firstn k (shape x)) in
    let n := nth k (shape x) 0%nat in
    let inner := numel (skipn (S k) (shape x)) in
    let cut block :=
      concat (Py_slice.slice start stop (chunks n inner block)) in
    Some (mkTensor
            (firstn k (shape x) ++ Py_slice.slice_len start stop n
               :: skipn (S k) (shape x))
            (concat (map cut (chunks outer (n * inner) (data x)))))
  else None.

(** [x.view(r, c)]: same entries, new shape; refused when the sizes do not
    multiply to the number of entries.  A negative size is refused (the
    size -1, which torch infers, is not modelled). *)
Definition view2 (x : tensor) (r c : Z) : option tensor :=
  if (r <? 0) || (c <? 0) then None
  else if (numel (shape x) =? Z.to_nat r * Z.to_nat c)%nat
       then Some (mkTensor [Z.to_nat r; Z.to_nat c] (data x))
       else None.

(** [nn.Flatten()]: dimensions 1 to the last become one. *)
Definition Flatten (x : tensor) : option tensor :=
  match shape x with
  | b :: d :: rest => Some (mkTensor [b; numel (d :: rest)] (data x))
  | _ => None
  end.

(** [nn.Unflatten(1, (c, h, w))]. *)
Definition Unflatten1 (c h w : Z) (x : tensor) : option tensor :=
  match shape x with
  | b :: n :: rest =>
      if (c <? 0) || (h <? 0) || (w <? 0) then None
      else if (n =? Z.to_nat c * Z.to_nat h * Z.to_nat w)%nat
           then Some (mkTensor (b :: Z.to_nat c :: Z.to_nat h
                                  :: Z.to_nat w :: rest) (data x))
           else None
  | _ => None
  end.

Definition sum_list (l : list R) : R := fold_right Rplus 0%R l.

(** Softmax of one row, in exact real arithmetic. *)
Definition softmax_row (row : list R) : list R :=
  let e := map exp row in
  map (fun y => (y / sum_list e)%R) e.

(** The rows of a tensor along its last dimension. *)
Definition rows (x : tensor) : list (list R) :=
  let c := last (shape x) 1%nat in
  chunks (numel (removelast (shape x))) c (data x).

(** [nn.Softmax(dim=1)], on the rank-2 tensors [encode] gives it: softmax
    along the last dimension. *)
Definition Softmax_dim1 (x : tensor) : tensor :=
  mkTensor (shape x) (concat (map softmax_row (rows x))).

(** [nn.Sigmoid()]: the scalar function [sigmoid] on every entry. *)
Definition Sigmoid (sigmoid : R -> R) (x : tensor) : tensor :=
  mkTensor (shape x) (map sigmoid (data x)).

(** [torch.ones_like(x)]. *)
Definition ones_like (x : tensor) : tensor :=
  mkTensor (shape x) (map (fun _ => 1%R) (data x)).

(** [c * x] for a Python float [c]. *)
Definition scale (c : R) (x : tensor) : tensor :=
  mkTensor (shape x) (map (fun v => (c * v)%R) (data x)).

(** [x / n] for a Python integer [n]. *)
Definition div_int (x : tensor) (n : Z) : tensor :=
  mkTensor (shape x) (map (fun v => (v / IZR n)%R) (data x)).

(** [x + y] for two tensors of one shape. *)
Definition add (x y : tensor) : tensor :=
  mkTensor (shape x)
           (map (fun p => (fst p + snd p)%R) (combine (data x) (data y))).

End Torch.

(** ** Sub-modules

    A module maps a tensor to a tensor, may fail, and may update what the
    sub-modules own. *)

Definition nn_Module (W : Type) : Type := tensor -> W -> option tensor * W.

Definition pure_module {W : Type} (f : tensor -> tensor) : nn_Module W :=
  fun x w => (Some (f x), w).

Definition partial_module {W : Type} (f : tensor -> option tensor)
  : nn_Module W :=
  fun x w => (f x, w).

Definition stateful_module {W : Type} (f : tensor -> W -> tensor * W)
  : nn_Module W :=
  fun x w => let (y, w') := f x w in (Some y, w').

(** [nn.Sequential]. *)
Fixpoint Sequential {W : Type} (layers : list (nn_Module W)) : nn_Module W :=
  match layers with
  | [] => fun x w => (Some x, w)
  | f :: rest =>
      fun x w =>
        match f x w with
        | (Some y, w') => Sequential rest y w'
        | (None, w') => (None, w')
        end
  end.

(** The blocks taken from [BrainSimulator.models.cnn],
    [BrainSimulator.models.mlp], [BrainSimulator.custom_functions.utils],
    [torch.nn.MaxPool2d] and [torch.nn.Sigmoid], with the contract each
    one is used under: the shapes of the tensors, and for the sigmoid the
    range [0, 1] of its float32 values (the ends included: the float32
    sigmoid is exactly 1.0 at 100 and exactly 0.0 at -200). *)
Class Layers (W : Type) : Type := {
  (** [CNNLayer(in_channels, out_channels, kernel_size)] *)
  CNNLayer : Z -> Z -> Z -> tensor -> W -> tensor * W;
  (** [nn.MaxPool2d(kernel_size, stride=stride)] *)
  MaxPool2d : Z -> Z -> tensor -> tensor;
  (** [MLP(depth, in_dim, hidden_dim, out_dim)] *)
  MLP : Z -> Z -> Z -> Z -> tensor -> W -> tensor * W;
  (** [DeCNNLayer(in_channels, out_channels, kernel_size, stride, padding)] *)
  DeCNNLayer : Z -> Z -> Z -> Z -> Z -> tensor -> W -> tensor * W;
  (** [STMNsampler()] *)
  STMNsampler : tensor -> W -> tensor * W;
  (** [nn.Sigmoid()] on one entry, as the float32 arithmetic of torch
      computes it *)
  sigmoid : R -> R;

  CNNLayer_shape :
    forall cin cout k x w b h wd,
      wf x -> shape x = [b; Z.to_nat cin; h; wd] ->
      wf (fst (CNNLayer cin cout k x w)) /\
      shape (fst (CNNLayer cin cout k x w)) = [b; Z.to_nat cout; h; wd];
  MaxPool2d_shape :
    forall k x b c h wd,
      0 < k -> wf x ->
      shape x = [b; c; (Z.to_nat k * h)%nat; (Z.to_nat k * wd)%nat] ->
      wf (MaxPool2d k k x) /\ shape (MaxPool2d k k x) = [b; c; h; wd];
  MLP_shape :
    forall depth din dhid dout x w b,
      wf x -> shape x = [b; Z.to_nat din] ->
      wf (fst (MLP depth din dhid dout x w)) /\
      shape (fst (MLP depth din dhid dout x w)) = [b; Z.to_nat dout];
  DeCNNLayer_shape :
    forall cin cout k x w b h wd,
      0 < k -> wf x -> shape x = [b; Z.to_nat cin; h; wd] ->
      wf (fst (DeCNNLayer cin cout k k 0 x w)) /\
      shape (fst (DeCNNLayer cin cout k k 0 x w))
      = [b; Z.to_nat cout; (Z.to_nat k * h)%nat; (Z.to_nat k * wd)%nat];
  STMNsampler_shape :
    forall x w,
      wf x ->
      wf (fst (STMNsampler x w)) /\
      shape (fst (STMNsampler x w)) = shape x;
  sigmoid_range :
    forall v, (0 <= sigmoid v <= 1)%R
}.

(** ** The model object *)

(** The attributes [__init__] assigns.  [modules] stands for everything the
    sub-modules own (weights, buffers, generator state); its type [W] is
    left abstract. *)
Record VariationalAutoEncoder (W : Type) : Type := mkVAE {
  image_height : Z;
  image_width : Z;
  n_distributions : Z;
  n_categories : Z;
  latent_size : Z;
  scalings : list Z;
  padded_height : Z;
  padded_width : Z;
  pad_height : Z;
  pad_width : Z;
  pad_top : Z;
  pad_bottom : Z;
  pad_left : Z;
  pad_right : Z;
  latent_channels_size : Z;
  post_cnn_height : Z;
  post_cnn_width : Z;
  post_cnn_encoder_size : Z;
  encoder : nn_Module W;
  softmax_act : tensor -> tensor;
  sampler : nn_Module W;
  decoder : nn_Module W;
  modules : W
}.

Arguments mkVAE {W}.
Arguments image_height {W}.
Arguments image_width {W}.
Arguments n_distributions {W}.
Arguments n_categories {W}.
Arguments latent_size {W}.
Arguments scalings {W}.
Arguments padded_height {W}.
Arguments padded_width {W}.
Arguments pad_height {W}.
Arguments pad_width {W}.
Arguments pad_top {W}.
Arguments pad_bottom {W}.
Arguments pad_left {W}.
Arguments pad_right {W}.
Arguments latent_channels_size {W}.
Arguments post_cnn_height {W}.
Arguments post_cnn_width {W}.
Arguments post_cnn_encoder_size {W}.
Arguments encoder {W}.
Arguments softmax_act {W}.
Arguments sampler {W}.
Arguments decoder {W}.
Arguments modules {W}.

(** The only update a forward pass makes to the object: what its
    sub-modules own. *)
Definition set_modules {W : Type} (self : VariationalAutoEncoder W) (w : W)
  : VariationalAutoEncoder W :=
  mkVAE (image_height self) (image_width self) (n_distributions self)
        (n_categories self) (latent_size self) (scalings self)
        (padded_height self) (padded_width self) (pad_height self)
        (pad_width self) (pad_top self) (pad_bottom self) (pad_left self)
        (pad_right self) (latent_channels_size self) (post_cnn_height self)
        (post_cnn_width self) (post_cnn_encoder_size self) (encoder self)
        (softmax_act self) (sampler self) (decoder self) w.

(** [self.scalings = [8, 4, 2]]. *)
Definition the_scalings : list Z := [8; 4; 2].

(** [total_scaling = int(np.prod(self.scalings))], a local of [__init__]. *)
Definition total_scaling : Z := Py.np_prod the_scalings.

(** [int(np.ceil(dim / total_scaling) * total_scaling)]. *)
Definition padded_dim (dim : Z) : Z :=
  Py.np_ceil (Py.true_div dim total_scaling) * total_scaling.

(** [l[i]] on the list of scalings. *)
Definition item (l : list Z) (i : nat) : Z := nth i l 0.

Section Model.

Context {W : Type} {L : Layers W}.

(** [__init__]: the attribute assignments, in source order, for a given
    reading [true_div] of the division [image_height / total_scaling].
    [w0] is what the freshly built sub-modules own.  The product of the
    ceiling with [total_scaling] = 64 is exact in binary64. *)
Definition init_with (true_div : Z -> Z -> Q) (image_height image_width : Z)
    (n_distributions n_categories : Z) (w0 : W) : VariationalAutoEncoder W :=
  let latent_size := n_distributions * n_categories in
  let scalings := the_scalings in
  let total_scaling := Py.np_prod scalings in
  let padded_height :=
    Py.np_ceil (true_div image_height total_scaling) * total_scaling in
  let padded_width :=
    Py.np_ceil (true_div image_width total_scaling) * total_scaling in
  let pad_height := padded_height - image_height in
  let pad_width := padded_width - image_width in
  let pad_top := Py.floor_div pad_height 2 in
  let pad_bottom := pad_height - pad_top in
  let pad_left := Py.floor_div pad_width 2 in
  let pad_right := pad_width - pad_left in
  let latent_channels_size := n_distributions in
  let post_cnn_height := Py.floor_div padded_height total_scaling in
  let post_cnn_width := Py.floor_div padded_width total_scaling in
  let post_cnn_encoder_size :=
    post_cnn_height * post_cnn_width * latent_channels_size in
  let encoder :=
    Sequential
      [ stateful_module (CNNLayer 1 64 3);
        pure_module (MaxPool2d (item scalings 0) (item scalings 0));
        stateful_module (CNNLayer 64 256 3);
        pure_module (MaxPool2d (item scalings 1) (item scalings 1));
        stateful_module (CNNLayer 256 latent_channels_size 3);
        pure_module (MaxPool2d (item scalings 2) (item scalings 2));
        partial_module Torch.Flatten;
        stateful_module
          (MLP 3 post_cnn_encoder_size latent_size
               (n_distributions * n_categories)) ] in
  let softmax_act := Torch.Softmax_dim1 in
  let sampler := stateful_module STMNsampler in
  let decoder :=
    Sequential
      [ stateful_module
          (MLP 3 latent_size latent_size post_cnn_encoder_size);
        partial_module
          (Torch.Unflatten1 latent_channels_size post_cnn_height
                            post_cnn_width);
        stateful_module
          (DeCNNLayer latent_channels_size 256 (item scalings 2)
                      (item scalings 2) 0);
        stateful_module
          (DeCNNLayer 256 64 (item scalings 1) (item scalings 1) 0);
        stateful_module
          (DeCNNLayer 64 1 (item scalings 0) (item scalings 0) 0);
        pure_module (Torch.Sigmoid sigmoid) ] in
  mkVAE image_height image_width n_distributions n_categories latent_size
        scalings padded_height padded_width pad_height pad_width
        pad_top pad_bottom pad_left pad_right latent_channels_size
        post_cnn_height post_cnn_width post_cnn_encoder_size
        encoder softmax_act sampler decoder w0.

(** [__init__] with the division read exactly. *)
Definition init : Z -> Z -> Z -> Z -> W -> VariationalAutoEncoder W :=
  init_with Py.true_div.

(** [__init__] as executed, the division in binary64.  It builds the
    object of [init] for image dimensions up to 2^53 (lemma
    [init_b64_exact]) and another one at 2^53 + 1. *)
Definition init_b64 : Z -> Z -> Z -> Z -> W -> VariationalAutoEncoder W :=
  init_with Py.true_div_b64.

(** *** Methods

    A method runs on the object and returns its result (or the failure of
    a tensor operation) with the object as the call leaves it. *)

Definition M (A : Type) : Type :=
  VariationalAutoEncoder W -> option A * VariationalAutoEncoder W.

Definition ret {A : Type} (a : A) : M A := fun self => (Some a, self).

Definition bind {A B : Type} (m : M A) (k : A -> M B) : M B :=
  fun self =>
    match m self with
    | (Some a, self') => k a self'
    | (None, self') => (None, self')
    end.

(** Reading an attribute, [self.f]. *)
Definition attr {A : Type} (f : VariationalAutoEncoder W -> A) : M A :=
  fun self => (Some (f self), self).

(** A tensor operation that may raise. *)
Definition lift {A : Type} (o : option A) : M A := fun self => (o, self).

(** Calling the sub-module held in attribute [f], [self.f(x)]. *)
Definition call (f : VariationalAutoEncoder W -> nn_Module W) (x : tensor)
  : M tensor :=
  fun self =>
    let (r, w') := f self x (modules self) in (r, set_modules self w').

Notation "x <- m ;; k" := (bind m (fun x => k))
  (at level 61, m at next level, right associativity).

(** Which way one axis of [unpad_output] goes. *)
Inductive unpad_branch : Type :=
| Keep        (* the pad of the axis is zero: no slicing *)
| SliceBoth   (* [x[..., low:-high]] *)
| SliceFrom.  (* [x[..., low:]], the fallback when only [high] is zero *)

Definition unpad_branch_of (low high : Z) : unpad_branch :=
  if low + high >? 0 then
    if high >? 0 then SliceBoth else SliceFrom
  else Keep.

(** One [if] statement of [unpad_output], slicing dimension [k]. *)
Definition unpad_axis (k : nat) (low high : Z) (x : tensor) : option tensor :=
  match unpad_branch_of low high with
  | Keep => Some x
  | SliceBoth => Torch.slice_dim k (Some low) (Some (- high)) x
  | SliceFrom => Torch.slice_dim k (Some low) None x
  end.

Definition pad_input (x : tensor) : M tensor :=
  left <- attr pad_left ;;
  right <- attr pad_right ;;
  top <- attr pad_top ;;
  bottom <- attr pad_bottom ;;
  lift (Torch.pad x left right top bottom 0%R).

Definition unpad_output (x : tensor) : M tensor :=
  top <- attr pad_top ;;
  bottom <- attr pad_bottom ;;
  x <- lift (unpad_axis 2 top bottom x) ;;
  left <- attr pad_left ;;
  right <- attr pad_right ;;
  x <- lift (unpad_axis 3 left right x) ;;
  ret x.

(** [0.99 * d + 0.01 * torch.ones_like(d) / n_categories], in exact real
    arithmetic. *)
Definition smooth (d : tensor) (n_categories : Z) : tensor :=
  Torch.add (Torch.scale 0.99%R d)
            (Torch.div_int (Torch.scale 0.01%R (Torch.ones_like d))
                           n_categories).

Definition encode (x : tensor) : M (tensor * tensor) :=
  let batch_dim := Torch.shape0 x in
  x <- pad_input x ;;
  x <- call encoder x ;;
  nd <- attr n_distributions ;;
  nc <- attr n_categories ;;
  x <- lift (Torch.view2 x (batch_dim * nd) nc) ;;
  act <- attr softmax_act ;;
  let distributions := act x in
  nc <- attr n_categories ;;
  let distributions := smooth distributions nc in
  sample <- call sampler distributions ;;
  nd <- attr n_distributions ;;
  nc <- attr n_categories ;;
  sample <- lift (Torch.view2 sample batch_dim (nd * nc)) ;;
  nd <- attr n_distributions ;;
  nc <- attr n_categories ;;
  distributions <- lift (Torch.view2 distributions batch_dim (nd * nc)) ;;
  ret (sample, distributions).

Definition decode (z : tensor) : M tensor :=
  x <- call decoder z ;;
  x <- unpad_output x ;;
  ret x.

Definition forward (x : tensor) : M (tensor * tensor * tensor) :=
  r <- encode x ;;
  let (latent_sample, latent_distribution) := r in
  decoded_out <- decode latent_sample ;;
  ret (decoded_out, latent_sample, latent_distribution).

End Model.

Arguments M : clear implicits.

(** The shape plan and the latent configuration of an object. *)
Definition plan {W : Type} (self : VariationalAutoEncoder W) : list Z :=
  [ padded_height self; padded_width self; pad_top self; pad_bottom self;
    pad_left self; pad_right self; post_cnn_height self;
    post_cnn_width self; post_cnn_encoder_size self;
    n_distributions self; n_categories self; latent_size self ].

(** ** Vocabulary of the statements *)

(** [self'] is [self] up to what the sub-modules own. *)
Definition frame {W : Type} (self self' : VariationalAutoEncoder W) : Prop :=
  self' = set_modules self (modules self').

(** A method that leaves every attribute but [modules] as it found it. *)
Definition framed {W A : Type} (m : M W A) : Prop :=
  forall self, frame self (snd (m self)).

(** A well-formed tensor of shape [s]. *)
Definition shaped (s : list nat) (x : tensor) : Prop :=
  wf x /\ shape x = s.

(** [f] takes every tensor satisfying [P] to one satisfying [Q], without
    failing. *)
Definition maps {W : Type} (f : nn_Module W) (P Q : tensor -> Prop) : Prop :=
  forall x w, P x -> exists y w', f x w = (Some y, w') /\ Q y.

(** A tensor of the given shape filled with [v]. *)
Definition full (s : list nat) (v : R) : tensor :=
  mkTensor s (repeat v (numel s)).

(** [torch.arange(numel).view(s)]: the tensor of shape [s] whose entries
    count from 0 in row-major order. *)
Definition ramp (s : list nat) : tensor :=
  mkTensor s (map INR (seq 0 (numel s))).

(** ** The sampler *)

Module STMN.

(** The generator: the variates, uniform on [0, 1), it will yield. *)
Definition generator : Type := nat -> R.

(** The one-hot row of length [n] with its hot entry at [k]. *)
Definition one_hot (n k : nat) : list R :=
  map (fun j => if (j =? k)%nat then 1%R else 0%R) (seq 0 n).

(** Modelled from the spec: the categorical draw of [STMNsampler] (spec
    4.4, step 3, "drawn proportionally to the row's probabilities").  The
    category a variate [u] selects from the probabilities [p] is the first
    one whose cumulated probability exceeds [u]. *)
Fixpoint draw (u : R) (p : list R) : nat :=
  match p with
  | [] => O
  | q :: rest => if Rlt_dec u q then O else S (draw (u - q) rest)
  end.


(** Modelled from the spec: the forward value of [STMNsampler] for one
    row (spec 9, "detach and re-add"): [one_hot + p - p.detach()]. *)
Definition sample_row (u : R) (p : list R) : list R :=
  map (fun hq => (fst hq + snd hq - snd hq)%R)
      (combine (one_hot (length p) (draw u p)) p).

(** Modelled from the spec: [STMNsampler], the straight-through
    multinomial sampler of [BrainSimulator/custom_functions/utils.py],
    which is not among the sources.  Spec 4.4, step 3: one draw per row,
    the forward value a one-hot vector whose hot index is drawn
    proportionally to the row's probabilities by true stochastic sampling;
    spec 9: the hard value is re-added to the probabilities and their
    detached copy, so that the gradient is that of the probabilities.
    Row [i] is drawn with the [i]-th variate of the generator, as the
    inverse of the cumulative distribution; the generator is left past the
    variates used. *)
Definition sampler (d : tensor) (g : generator) : tensor * generator :=
  let rs := Torch.rows d in
  (mkTensor (shape d)
            (concat (map (fun ir => sample_row (g (fst ir)) (snd ir))
                         (combine (seq 0 (length rs)) rs))),
   fun i => g (length rs + i)%nat).

End STMN.

(** ** The simplest blocks meeting the contracts

    Every block returns the tensor of the contracted shape filled with
    zeros (the sampler returns its argument, the sigmoid is the exact
    one); the sub-modules own nothing.
    The theorems are instantiated at this model. *)

Module Zero_blocks.

Definition dim (x : tensor) (i : nat) : nat := nth i (shape x) 0%nat.

Definition CNNLayer (cin cout k : Z) (x : tensor) (w : unit)
  : tensor * unit :=
  (full [dim x 0; Z.to_nat cout; dim x 2; dim x 3] 0%R, w).

Definition MaxPool2d (k stride : Z) (x : tensor) : tensor :=
  full [dim x 0; dim x 1; (dim x 2 / Z.to_nat k)%nat;
        (dim x 3 / Z.to_nat k)%nat] 0%R.

Definition MLP (depth din dhid dout : Z) (x : tensor) (w : unit)
  : tensor * unit :=
  (full [dim x 0; Z.to_nat dout] 0%R, w).

Definition DeCNNLayer (cin cout k stride padding : Z) (x : tensor) (w : unit)
  : tensor * unit :=
  (full [dim x 0; Z.to_nat cout; (Z.to_nat k * dim x 2)%nat;
         (Z.to_nat k * dim x 3)%nat] 0%R, w).

Definition STMNsampler (x : tensor) (w : unit) : tensor * unit := (x, w).

Definition sigmoid (v : R) : R := (1 / (1 + exp (- v)))%R.

End Zero_blocks.

(** The blocks above meet the contracts. *)
Definition zero_blocks : Layers unit.
Proof.
  refine {| CNNLayer := Zero_blocks.CNNLayer;
            MaxPool2d := Zero_blocks.MaxPool2d;
            MLP := Zero_blocks.MLP;
            DeCNNLayer := Zero_blocks.DeCNNLayer;
            STMNsampler := Zero_blocks.STMNsampler;
            sigmoid := Zero_blocks.sigmoid |}.
  - intros cin cout k x w b h wd _ Hs. split; [apply repeat_length|].
    cbn. unfold Zero_blocks.dim. now rewrite Hs.
  - intros k x b c h wd Hk _ Hs. split; [apply repeat_length|].
    cbn. unfold Zero_blocks.dim. rewrite Hs. cbn [nth].
    rewrite !(Nat.mul_comm (Z.to_nat k)), !Nat.div_mul by lia. reflexivity.
  - intros depth din dhid dout x w b _ Hs. split; [apply repeat_length|].
    cbn. unfold Zero_blocks.dim. now rewrite Hs.
  - intros cin cout k x w b h wd Hk _ Hs. split; [apply repeat_length|].
    cbn. unfold Zero_blocks.dim. now rewrite Hs.
  - intros x w Hwf. split; [exact Hwf|reflexivity].
  - intros v. unfold Zero_blocks.sigmoid.
    pose proof (exp_pos (- v)) as He.
    assert (H1 : (1 < 1 + exp (- v))%R) by lra.
    split.
    + apply Rlt_le, Rdiv_lt_0_compat; lra.
    + apply (Rmult_le_reg_r (1 + exp (- v))%R); [lra|].
      unfold Rdiv. rewrite Rmult_assoc, Rinv_l by lra. lra.
Defined.

(** * Proofs *)

(** ** The primitives on small inputs *)

Example slice_inner :
  Py_slice.slice (Some 1) (Some (-1)) [10; 20; 30; 40] = [20; 30].
Proof. reflexivity. Qed.

(** [l[1:-0]] is [l[1:0]], the empty list: the reason [unpad_output]
    tests the high pad before slicing. *)
Example slice_minus_zero :
  Py_slice.slice (Some 1) (Some (- 0)) [10; 20; 30; 40] = [].
Proof. reflexivity. Qed.

Example slice_open_end :
  Py_slice.slice (Some 1) None [10; 20; 30; 40] = [20; 30; 40].
Proof. reflexivity. Qed.

Example chunks_rows : chunks 2 3 [1; 2; 3; 4; 5; 6] = [[1; 2; 3]; [4; 5; 6]].
Proof. reflexivity. Qed.

Example padded_dim_100 : padded_dim 100 = 128.
Proof. reflexivity. Qed.

Example padded_dim_128 : padded_dim 128 = 128.
Proof. reflexivity. Qed.

Example pad_shape_2_3 :
  option_map shape (Torch.pad (full [1; 1; 2; 3]%nat 1%R) 1 2 0 1 0%R)
  = Some [1; 1; 3; 6]%nat.
Proof. reflexivity. Qed.

(** A negative amount removes entries: the top row goes. *)
Example pad_crops_top :
  Torch.pad (mkTensor [1; 1; 3; 2]%nat [1; 2; 3; 4; 5; 6]%R) 0 0 (-1) 0 0%R
  = Some (mkTensor [1; 1; 2; 2]%nat [3; 4; 5; 6]%R).
Proof. reflexivity. Qed.

Example pad_crops_and_grows :
  Torch.pad (mkTensor [1; 1; 1; 3]%nat [1; 2; 3]%R) (-1) 2 0 0 0%R
  = Some (mkTensor [1; 1; 1; 4]%nat [2; 3; 0; 0]%R).
Proof. reflexivity. Qed.

Example pad_crops_too_much :
  Torch.pad (mkTensor [1; 1; 1; 3]%nat [1; 2; 3]%R) (-4) 2 0 0 0%R = None.
Proof. reflexivity. Qed.

(** ** Arithmetic of the shape plan *)

Lemma total_scaling_64 : total_scaling = 64.
Proof. reflexivity. Qed.

(** Ceiling of an exact quotient by a positive integer, in integer terms. *)
Lemma np_ceil_true_div (a : Z) (p : positive) :
  Py.np_ceil (Py.true_div a (Z.pos p)) = - ((- a) / Z.pos p).
Proof.
  unfold Py.np_ceil, Py.true_div, Qceiling, Qfloor.
  cbn [inject_Z Qdiv Qinv Qmult Qopp Qnum Qden Pos.mul].
  now rewrite Z.mul_1_r.
Qed.
(** ** The padded dimension *)

(** [padded_dim] in integer terms. *)
Lemma padded_dim_eq (d : Z) : padded_dim d = - ((- d) / 64) * 64.
Proof.
  unfold padded_dim. rewrite total_scaling_64.
  now rewrite (np_ceil_true_div d 64).
Qed.

Lemma padded_dim_multiple (d : Z) : padded_dim d mod total_scaling = 0.
Proof.
  rewrite padded_dim_eq, total_scaling_64. apply Z.mod_mul. lia.
Qed.

Lemma padded_dim_bounds (d : Z) :
  padded_dim d - total_scaling < d <= padded_dim d.
Proof.
  rewrite padded_dim_eq, total_scaling_64.
  pose proof (Z.div_mod (- d) 64 ltac:(lia)) as E.
  pose proof (Z.mod_pos_bound (- d) 64 ltac:(lia)) as B.
  lia.
Qed.

(** No multiple of [total_scaling] lies between [d] and [padded_dim d]. *)
Lemma padded_dim_least (d m : Z) :
  m mod total_scaling = 0 -> d <= m -> padded_dim d <= m.
Proof.
  intros Hm Hd.
  pose proof (padded_dim_bounds d) as B.
  pose proof (padded_dim_multiple d) as P.
  rewrite total_scaling_64 in *.
  apply Z.mod_divide in Hm; [|lia]. apply Z.mod_divide in P; [|lia].
  destruct Hm as [a ->]. destruct P as [b Pb]. rewrite Pb in *. lia.
Qed.

Lemma padded_dim_div (d : Z) :
  Py.floor_div (padded_dim d) total_scaling * total_scaling = padded_dim d.
Proof.
  unfold Py.floor_div.
  pose proof (padded_dim_multiple d) as P.
  pose proof (Z.div_mod (padded_dim d) total_scaling) as E.
  rewrite total_scaling_64 in *. lia.
Qed.

(** ** The binary64 division *)

Example true_div_b64_third :
  Py.true_div_b64 1 3 = Qmake 6004799503160661 (2 ^ 54).
Proof. reflexivity. Qed.

(** 2^53 + 1 is halfway between two binary64 numbers; the tie goes to the
    even mantissa, and the quotient by 64 is 2^47. *)
Example true_div_b64_tie :
  Py.true_div_b64 (2 ^ 53 + 1) 64 = Qmake (2 ^ 52) (2 ^ 5).
Proof. reflexivity. Qed.

(** Below 2^53 the scaled quotient by 64 needs no rounding. *)
Lemma div_pos_64 (a : Z) :
  0 < a < 2 ^ 53 ->
  Py.div_pos a 64 = (a * 2 ^ (52 - Z.log2 a), Z.log2 a - 58).
Proof.
  intros Ha.
  assert (HL : 0 <= Z.log2 a < 53).
  { split; [apply Z.log2_nonneg|]. apply Z.log2_lt_pow2; lia. }
  destruct (Z.log2_spec a ltac:(lia)) as [Hlo Hhi].
  set (L := Z.log2 a) in *.
  unfold Py.div_pos. fold L.
  change (Z.log2 64) with 6.
  replace (L - 6 - 53) with (L - 59) by lia.
  unfold Py.scaled at 1.
  destruct (Z.leb_spec 0 (L - 59)); [lia|].
  replace (- (L - 59)) with (6 + (53 - L)) by lia.
  rewrite Z.pow_add_r by lia. change (2 ^ 6) with 64.
  replace (a * (64 * 2 ^ (53 - L))) with (a * 2 ^ (53 - L) * 64) by ring.
  rewrite Z.div_mul by lia.
  assert (Hbig : 2 ^ 53 <= a * 2 ^ (53 - L)).
  { replace (2 ^ 53) with (2 ^ L * 2 ^ (53 - L))
      by (rewrite <- Z.pow_add_r by lia; f_equal; lia).
    apply Z.mul_le_mono_nonneg_r; [apply Z.pow_nonneg; lia|exact Hlo]. }
  destruct (Z.ltb_spec (a * 2 ^ (53 - L)) (2 ^ 53)); [lia|].
  unfold Py.scaled.
  destruct (Z.leb_spec 0 (L - 59 + 1)); [lia|].
  replace (- (L - 59 + 1)) with (6 + (52 - L)) by lia.
  rewrite Z.pow_add_r by lia. change (2 ^ 6) with 64.
  replace (a * (64 * 2 ^ (52 - L))) with (a * 2 ^ (52 - L) * 64) by ring.
  unfold Py.nearest_even.
  rewrite Z.div_mul, Z.mod_mul by lia. cbn [Z.mul Z.ltb Z.compare].
  f_equal. lia.
Qed.

Lemma true_div_b64_below (a : Z) :
  0 < a < 2 ^ 53 ->
  Py.np_ceil (Py.true_div_b64 a 64) = Py.np_ceil (Py.true_div a 64).
Proof.
  intros Ha.
  assert (HL : 0 <= Z.log2 a < 53).
  { split; [apply Z.log2_nonneg|]. apply Z.log2_lt_pow2; lia. }
  rewrite (np_ceil_true_div a 64).
  unfold Py.true_div_b64.
  destruct (Z.eqb_spec a 0); [lia|]. cbn [Z.eqb orb].
  rewrite (Z.abs_eq a) by lia. change (Z.abs 64) with 64.
  rewrite (div_pos_64 a Ha).
  rewrite (Z.sgn_pos a) by lia. change (Z.sgn 64) with 1.
  rewrite !Z.mul_1_l.
  unfold Py.dyadic. destruct (Z.leb_spec 0 (Z.log2 a - 58)); [lia|].
  unfold Py.np_ceil, Qceiling, Qfloor. cbn [Qopp Qnum Qden].
  assert (Hp : 0 < 2 ^ (- (Z.log2 a - 58))) by (apply Z.pow_pos_nonneg; lia).
  rewrite Z2Pos.id by exact Hp.
  replace (- (Z.log2 a - 58)) with (6 + (52 - Z.log2 a)) by lia.
  rewrite Z.pow_add_r by lia. change (2 ^ 6) with 64.
  rewrite <- Z.mul_opp_l.
  rewrite Z.div_mul_cancel_r; [reflexivity|lia|].
  apply Z.pow_nonzero; lia.
Qed.

(** For a positive dividend up to 2^53 the ceiling of the binary64
    quotient by 64 is the ceiling of the exact quotient. *)
Lemma true_div_b64_exact (a : Z) :
  0 < a <= 2 ^ 53 ->
  Py.np_ceil (Py.true_div_b64 a 64) = Py.np_ceil (Py.true_div a 64).
Proof.
  intros Ha. destruct (Z.eq_dec a (2 ^ 53)) as [->|Hne]; [reflexivity|].
  apply true_div_b64_below. lia.
Qed.

(** For image dimensions up to 2^53 the constructor as executed builds
    the object of the exact reading. *)
Lemma init_b64_exact {W : Type} {L : Layers W} (h w nd nc : Z) (w0 : W) :
  0 < h <= 2 ^ 53 -> 0 < w <= 2 ^ 53 ->
  init_b64 h w nd nc w0 = init h w nd nc w0.
Proof.
  intros Hh Hw. unfold init_b64, init, init_with.
  change (Py.np_prod the_scalings) with 64.
  now rewrite (true_div_b64_exact h Hh), (true_div_b64_exact w Hw).
Qed.

Section Plan.

Context {W : Type} {L : Layers W}.
Variables (h w nd nc : Z) (w0 : W).

Let self := init h w nd nc w0.

Lemma init_padded_height : padded_height self = padded_dim h.
Proof. reflexivity. Qed.

Lemma init_padded_width : padded_width self = padded_dim w.
Proof. reflexivity. Qed.

Lemma init_pad_height : pad_height self = padded_dim h - h.
Proof. reflexivity. Qed.

Lemma init_pad_width : pad_width self = padded_dim w - w.
Proof. reflexivity. Qed.

Lemma init_pad_top : pad_top self = (padded_dim h - h) / 2.
Proof. reflexivity. Qed.

Lemma init_pad_bottom :
  pad_bottom self = (padded_dim h - h) - (padded_dim h - h) / 2.
Proof. reflexivity. Qed.

Lemma init_pad_left : pad_left self = (padded_dim w - w) / 2.
Proof. reflexivity. Qed.

Lemma init_pad_right :
  pad_right self = (padded_dim w - w) - (padded_dim w - w) / 2.
Proof. reflexivity. Qed.

Lemma init_post_cnn_height :
  post_cnn_height self = padded_dim h / total_scaling.
Proof. reflexivity. Qed.

Lemma init_post_cnn_width :
  post_cnn_width self = padded_dim w / total_scaling.
Proof. reflexivity. Qed.

(** The pad amounts of a constructed object are never negative. *)
Lemma init_pads_nonneg :
  0 <= pad_top self /\ 0 <= pad_bottom self /\
  0 <= pad_left self /\ 0 <= pad_right self.
Proof.
  rewrite init_pad_top, init_pad_bottom, init_pad_left, init_pad_right.
  pose proof (padded_dim_bounds h). pose proof (padded_dim_bounds w).
  pose proof (Z.div_mod (padded_dim h - h) 2 ltac:(lia)).
  pose proof (Z.mod_pos_bound (padded_dim h - h) 2 ltac:(lia)).
  pose proof (Z.div_mod (padded_dim w - w) 2 ltac:(lia)).
  pose proof (Z.mod_pos_bound (padded_dim w - w) 2 ltac:(lia)).
  lia.
Qed.

End Plan.

(** ** Blocks of a row-major list *)

Section Chunks.

Local Open Scope nat_scope.
Context {A : Type}.
Implicit Types (l : list A) (ll : list (list A)).

Lemma firstn_exact l l' : firstn (length l) (l ++ l') = l.
Proof.
  rewrite firstn_app, Nat.sub_diag, firstn_all. cbn. apply app_nil_r.
Qed.

Lemma skipn_exact l l' : skipn (length l) (l ++ l') = l'.
Proof.
  rewrite skipn_app, Nat.sub_diag, skipn_all. reflexivity.
Qed.

Lemma chunks_length n sz l : length (chunks n sz l) = n.
Proof.
  revert l. induction n as [|n IH]; intros l; cbn; [reflexivity|].
  now rewrite IH.
Qed.

Lemma chunks_concat sz ll :
  Forall (fun r => length r = sz) ll ->
  chunks (length ll) sz (concat ll) = ll.
Proof.
  induction 1 as [|r ll Hr _ IH]; cbn; [reflexivity|].
  subst sz. now rewrite firstn_exact, skipn_exact, IH.
Qed.

Lemma concat_chunks n sz l :
  length l = n * sz -> concat (chunks n sz l) = l.
Proof.
  revert l. induction n as [|n IH]; intros l Hl; cbn in *.
  - now destruct l.
  - rewrite IH, firstn_skipn; [reflexivity|].
    rewrite length_skipn. lia.
Qed.

Lemma chunks_sizes n sz l :
  length l = n * sz -> Forall (fun r => length r = sz) (chunks n sz l).
Proof.
  revert l. induction n as [|n IH]; intros l Hl; cbn in *; constructor.
  - rewrite length_firstn. lia.
  - apply IH. rewrite length_skipn. lia.
Qed.

Lemma concat_uniform_length sz ll :
  Forall (fun r => length r = sz) ll ->
  length (concat ll) = length ll * sz.
Proof.
  induction 1 as [|r ll Hr _ IH]; cbn; [reflexivity|].
  rewrite length_app, IH. lia.
Qed.

Lemma concat_map_concat (lll : list (list (list A))) :
  concat (map (@concat A) lll) = concat (concat lll).
Proof.
  induction lll as [|x lll IH]; cbn; [reflexivity|].
  now rewrite concat_app, IH.
Qed.

Lemma concat_singletons l : concat (map (fun a => [a]) l) = l.
Proof.
  induction l as [|a l IH]; cbn; [reflexivity|]. now rewrite IH.
Qed.

Lemma split_at k (s : list nat) :
  k < length s ->
  firstn k s ++ nth k s 0 :: skipn (S k) s = s.
Proof.
  revert s. induction k as [|k IH]; intros [|a s] Hk; cbn in *; try lia.
  - reflexivity.
  - f_equal. apply IH. lia.
Qed.

End Chunks.

(** ** Python slices *)

Section Slices.

Context {A : Type}.
Implicit Types (l pre mid post : list A).

Lemma slice_both pre mid post (low high : Z) :
  0 <= low -> 0 < high ->
  length pre = Z.to_nat low -> length post = Z.to_nat high ->
  Py_slice.slice (Some low) (Some (- high)) (pre ++ mid ++ post) = mid.
Proof.
  intros Hl Hh Hpre Hpost.
  unfold Py_slice.slice, Py_slice.start_of, Py_slice.stop_of, Py_slice.bound.
  rewrite !length_app.
  destruct (Z.ltb_spec low 0); [lia|].
  destruct (Z.ltb_spec (- high) 0); [|lia].
  replace (Z.to_nat (Z.min low _)) with (length pre) by lia.
  rewrite skipn_exact.
  match goal with |- firstn ?n _ = _ => replace n with (length mid) by lia end.
  apply firstn_exact.
Qed.

Lemma slice_from pre mid (low : Z) :
  0 <= low -> length pre = Z.to_nat low ->
  Py_slice.slice (Some low) None (pre ++ mid) = mid.
Proof.
  intros Hl Hpre.
  unfold Py_slice.slice, Py_slice.start_of, Py_slice.stop_of, Py_slice.bound.
  rewrite !length_app.
  destruct (Z.ltb_spec low 0); [lia|].
  replace (Z.to_nat (Z.min low _)) with (length pre) by lia.
  rewrite skipn_exact.
  match goal with |- firstn ?n _ = _ => replace n with (length mid) by lia end.
  apply firstn_all.
Qed.

End Slices.

Lemma slice_len_both (low high : Z) (m : nat) :
  0 <= low -> 0 < high ->
  Py_slice.slice_len (Some low) (Some (- high))
                     (Z.to_nat low + m + Z.to_nat high) = m.
Proof.
  intros Hl Hh.
  unfold Py_slice.slice_len, Py_slice.start_of, Py_slice.stop_of,
    Py_slice.bound.
  destruct (Z.ltb_spec low 0); [lia|].
  destruct (Z.ltb_spec (- high) 0); lia.
Qed.

Lemma slice_len_from (low : Z) (m : nat) :
  0 <= low ->
  Py_slice.slice_len (Some low) None (Z.to_nat low + m) = m.
Proof.
  intros Hl.
  unfold Py_slice.slice_len, Py_slice.start_of, Py_slice.stop_of,
    Py_slice.bound.
  destruct (Z.ltb_spec low 0); lia.
Qed.

(** ** Slicing and padding a tensor *)

Section SliceDim.

Local Open Scope nat_scope.

(** A tensor whose entries are given block by block, each block piece by
    piece along dimension [k], is sliced piece-wise. *)
Lemma slice_dim_blocks k start stop sh (bl : list (list (list R))) :
  k < length sh ->
  length bl = numel (firstn k sh) ->
  Forall (fun pieces =>
            length pieces = nth k sh 0 /\
            Forall (fun p => length p = numel (skipn (S k) sh)) pieces) bl ->
  Torch.slice_dim k start stop (mkTensor sh (concat (map (@concat R) bl)))
  = Some (mkTensor
            (firstn k sh ++ Py_slice.slice_len start stop (nth k sh 0)
               :: skipn (S k) sh)
            (concat (map (fun pieces =>
                            concat (Py_slice.slice start stop pieces)) bl))).
Proof.
  intros Hk Hlen Hbl. unfold Torch.slice_dim. cbn [shape data].
  apply Nat.ltb_lt in Hk. rewrite Hk. do 2 f_equal.
  rewrite <- Hlen, <- (length_map (@concat R) bl).
  rewrite chunks_concat.
  - rewrite map_map. f_equal. apply map_ext_in. intros pieces Hin.
    rewrite Forall_forall in Hbl. destruct (Hbl _ Hin) as [Hn Hp].
    rewrite <- Hn. now rewrite chunks_concat.
  - rewrite Forall_map. eapply Forall_impl; [|exact Hbl].
    cbn beta. intros pieces [Hn Hp].
    rewrite (concat_uniform_length _ _ Hp). now rewrite Hn.
Qed.

(** Each block is [pre ++ mid ++ post]; one axis of [unpad_output] with
    the lengths of [pre] and [post] as its pads keeps [mid]. *)
Lemma unpad_axis_strip k (low high : Z) sh m
      (pre post : list (list R)) (mids : list (list (list R))) :
  (0 <= low)%Z -> (0 <= high)%Z ->
  k < length sh ->
  nth k sh 0 = Z.to_nat low + m + Z.to_nat high ->
  length pre = Z.to_nat low -> length post = Z.to_nat high ->
  Forall (fun p => length p = numel (skipn (S k) sh)) pre ->
  Forall (fun p => length p = numel (skipn (S k) sh)) post ->
  length mids = numel (firstn k sh) ->
  Forall (fun mid =>
            length mid = m /\
            Forall (fun p => length p = numel (skipn (S k) sh)) mid) mids ->
  unpad_axis k low high
    (mkTensor sh (concat (map (fun mid => concat (pre ++ mid ++ post)) mids)))
  = Some (mkTensor (firstn k sh ++ m :: skipn (S k) sh)
                   (concat (map (@concat R) mids))).
Proof.
  intros Hl Hh Hk Hn Hpre Hpost Fpre Fpost Hlen Hmids.
  assert (Hbl : Forall (fun pieces =>
            length pieces = nth k sh 0 /\
            Forall (fun p => length p = numel (skipn (S k) sh)) pieces)
            (map (fun mid => pre ++ mid ++ post) mids)).
  { rewrite Forall_map. eapply Forall_impl; [|exact Hmids].
    cbn beta. intros mid [Hm Fm]. split.
    - rewrite !length_app. lia.
    - rewrite !Forall_app. auto. }
  assert (Hdata : map (fun mid => concat (pre ++ mid ++ post)) mids
                  = map (@concat R) (map (fun mid => pre ++ mid ++ post) mids))
    by now rewrite map_map.
  unfold unpad_axis, unpad_branch_of.
  destruct (Z.gtb_spec (low + high) 0) as [Hpos|Hzero].
  - destruct (Z.gtb_spec high 0) as [Hhigh|Hhigh].
    + rewrite Hdata, slice_dim_blocks; [|assumption|now rewrite length_map|assumption].
      rewrite Hn, slice_len_both by lia. do 3 f_equal.
      rewrite map_map. apply map_ext. intros mid.
      now rewrite slice_both by (assumption || lia).
    + assert (high = 0%Z) by lia. subst high.
      destruct post; [|discriminate].
      rewrite Hdata, slice_dim_blocks; [|assumption|now rewrite length_map|assumption].
      rewrite Hn. cbn [Z.to_nat]. rewrite Nat.add_0_r, slice_len_from by lia.
      do 3 f_equal. rewrite map_map. apply map_ext. intros mid.
      rewrite app_nil_r. now rewrite slice_from by (assumption || lia).
  - assert (low = 0%Z) by lia. assert (high = 0%Z) by lia. subst low high.
    destruct pre; [|discriminate]. destruct post; [|discriminate].
    cbn in Hn. rewrite Nat.add_0_r in Hn. rewrite <- Hn, split_at by assumption.
    do 3 f_equal. apply map_ext. intros mid. cbn. now rewrite app_nil_r.
Qed.

(** The shape one axis of [unpad_output] leaves, whatever the entries. *)
Lemma unpad_axis_shape k (low high : Z) x m :
  (0 <= low)%Z -> (0 <= high)%Z ->
  k < length (shape x) ->
  nth k (shape x) 0 = Z.to_nat low + m + Z.to_nat high ->
  exists y,
    unpad_axis k low high x = Some y /\
    shape y = firstn k (shape x) ++ m :: skipn (S k) (shape x).
Proof.
  intros Hl Hh Hk Hn. unfold unpad_axis, unpad_branch_of, Torch.slice_dim.
  pose proof Hk as Hk'. apply Nat.ltb_lt in Hk'.
  destruct (Z.gtb_spec (low + high) 0) as [Hpos|Hzero].
  - destruct (Z.gtb_spec high 0) as [Hhigh|Hhigh]; rewrite Hk';
      eexists; (split; [reflexivity|]); cbn [shape]; rewrite Hn.
    + now rewrite slice_len_both by lia.
    + replace (Z.to_nat high) with 0 by lia.
      now rewrite Nat.add_0_r, slice_len_from by lia.
  - exists x. split; [reflexivity|].
    replace m with (nth k (shape x) 0) by lia.
    symmetry. now apply split_at.
Qed.

End SliceDim.

Section PadUnpad.

Local Open Scope nat_scope.

Lemma Forall_repeat_same {A : Type} (P : A -> Prop) (a : A) n :
  P a -> Forall P (repeat a n).
Proof. intros Ha. induction n; cbn; constructor; assumption. Qed.

Lemma pad_row_length l r v row :
  length (Torch.pad_row l r v row) = l + length row + r.
Proof.
  unfold Torch.pad_row. rewrite !length_app, !repeat_length. lia.
Qed.

Lemma crop_nothing {A : Type} (l : list A) : Torch.crop 0 0 l = l.
Proof.
  unfold Torch.crop. cbn [skipn]. rewrite !Nat.sub_0_r. apply firstn_all.
Qed.

(** [F.pad] on a rank-4 tensor, no amount negative. *)
Lemma pad_rank4 x B C H Wd (left right top bottom : Z) v :
  shape x = [B; C; H; Wd] ->
  (0 <= left)%Z -> (0 <= right)%Z -> (0 <= top)%Z -> (0 <= bottom)%Z ->
  Torch.pad x left right top bottom v
  = Some (mkTensor
            [B; C; Z.to_nat top + H + Z.to_nat bottom;
             Z.to_nat left + Wd + Z.to_nat right]
            (concat (map (Torch.pad_image (Z.to_nat left) (Z.to_nat right)
                            (Z.to_nat top) (Z.to_nat bottom) v H Wd)
                         (chunks (numel [B; C]) (H * Wd) (data x))))).
Proof.
  intros Hs Hl Hr Ht Hb. unfold Torch.pad. rewrite Hs. cbn [rev app].
  replace (Z.to_nat (- left)) with 0 by lia.
  replace (Z.to_nat (- right)) with 0 by lia.
  replace (Z.to_nat (- top)) with 0 by lia.
  replace (Z.to_nat (- bottom)) with 0 by lia.
  cbn [Nat.add Nat.leb andb]. cbv zeta. rewrite !Nat.sub_0_r.
  do 3 f_equal. apply map_ext. intros img. unfold Torch.pad_image.
  f_equal. rewrite crop_nothing.
  erewrite map_ext; [apply map_id|]. intros row. apply crop_nothing.
Qed.

(** The images of a well-formed rank-4 tensor and their rows. *)
Lemma images_sizes x B C H Wd :
  wf x -> shape x = [B; C; H; Wd] ->
  Forall (fun img => length img = H * Wd)
         (chunks (numel [B; C]) (H * Wd) (data x)).
Proof.
  intros Hwf Hs. apply chunks_sizes. unfold wf in Hwf.
  rewrite Hwf, Hs. cbn. lia.
Qed.

Lemma images_concat x B C H Wd :
  wf x -> shape x = [B; C; H; Wd] ->
  concat (chunks (numel [B; C]) (H * Wd) (data x)) = data x.
Proof.
  intros Hwf Hs. apply concat_chunks. unfold wf in Hwf.
  rewrite Hwf, Hs. cbn. lia.
Qed.

Lemma pad_image_length l r t b v H Wd img :
  length img = H * Wd ->
  length (Torch.pad_image l r t b v H Wd img) = (t + H + b) * (l + Wd + r).
Proof.
  intros Himg. unfold Torch.pad_image, Torch.pad_rows.
  rewrite (concat_uniform_length (l + Wd + r)).
  - rewrite !length_app, !repeat_length, length_map, chunks_length. lia.
  - rewrite !Forall_app. repeat split.
    + apply Forall_repeat_same, repeat_length.
    + rewrite Forall_map. eapply Forall_impl; [|apply chunks_sizes, Himg].
      cbn beta. intros row Hrow. now rewrite pad_row_length, Hrow.
    + apply Forall_repeat_same, repeat_length.
Qed.

(** Padding keeps a tensor well-formed. *)
Lemma pad_wf x B C H Wd (left right top bottom : Z) v y :
  (0 <= left)%Z -> (0 <= right)%Z -> (0 <= top)%Z -> (0 <= bottom)%Z ->
  wf x -> shape x = [B; C; H; Wd] ->
  Torch.pad x left right top bottom v = Some y ->
  wf y /\
  shape y = [B; C; Z.to_nat top + H + Z.to_nat bottom;
             Z.to_nat left + Wd + Z.to_nat right].
Proof.
  intros Hl Hr Ht Hb Hwf Hs Hy.
  rewrite (pad_rank4 _ _ _ _ _ _ _ _ _ _ Hs Hl Hr Ht Hb) in Hy.
  injection Hy as <-. split; [|reflexivity].
  unfold wf. cbn [data shape].
  rewrite (concat_uniform_length
             ((Z.to_nat top + H + Z.to_nat bottom)
              * (Z.to_nat left + Wd + Z.to_nat right))).
  - rewrite length_map, chunks_length. cbn. lia.
  - rewrite Forall_map.
    eapply Forall_impl; [|apply (images_sizes _ _ _ _ _ Hwf Hs)].
    cbn beta. intros img Himg. now apply pad_image_length.
Qed.

(** Slicing the planned border off a padded tensor gives the tensor
    back: the two [if] statements of [unpad_output] after [F.pad]. *)
Lemma unpad_pad x B C H Wd (left right top bottom : Z) :
  (0 <= left)%Z -> (0 <= right)%Z -> (0 <= top)%Z -> (0 <= bottom)%Z ->
  wf x -> shape x = [B; C; H; Wd] ->
  exists y y2,
    Torch.pad x left right top bottom 0%R = Some y /\
    unpad_axis 2 top bottom y = Some y2 /\
    unpad_axis 3 left right y2 = Some x.
Proof.
  intros Hl Hr Ht Hb Hwf Hs.
  set (l := Z.to_nat left). set (r := Z.to_nat right).
  set (t := Z.to_nat top). set (b := Z.to_nat bottom).
  set (images := chunks (numel [B; C]) (H * Wd) (data x)).
  set (blank := repeat 0%R (l + Wd + r)).
  set (allrows := concat (map (chunks H Wd) images)).
  assert (Himgs : Forall (fun img => length img = H * Wd) images)
    by (apply (images_sizes _ _ _ _ _ Hwf Hs)).
  assert (Hrows : Forall (fun row => length row = Wd) allrows).
  { unfold allrows. rewrite Forall_concat, Forall_map.
    eapply Forall_impl; [|exact Himgs]. cbn beta. intros img Himg.
    now apply chunks_sizes. }
  assert (Hnrows : length allrows = numel [B; C; H]).
  { unfold allrows. rewrite (concat_uniform_length H).
    - rewrite length_map. unfold images. rewrite chunks_length. cbn. lia.
    - rewrite Forall_map. apply Forall_forall. intros img _.
      apply chunks_length. }
  eexists. eexists.
  split; [apply (pad_rank4 _ _ _ _ _ _ _ _ _ _ Hs Hl Hr Ht Hb)|].
  fold l r t b images.
  (* the rows axis *)
  unfold Torch.pad_image, Torch.pad_rows.
  assert (E2 : map (fun img =>
                      concat (repeat (repeat 0%R (l + Wd + r)) t
                              ++ map (Torch.pad_row l r 0%R) (chunks H Wd img)
                              ++ repeat (repeat 0%R (l + Wd + r)) b)) images
               = map (fun mid => concat (repeat blank t ++ mid ++ repeat blank b))
                     (map (fun img => map (Torch.pad_row l r 0%R) (chunks H Wd img))
                          images))
    by now rewrite map_map.
  rewrite E2.
  rewrite (unpad_axis_strip 2 top bottom _ H); try assumption.
  2: cbn; lia.
  2: reflexivity.
  2, 3: apply repeat_length.
  2, 3: apply Forall_repeat_same; unfold blank; rewrite repeat_length; cbn; lia.
  2: rewrite length_map; unfold images; now rewrite chunks_length.
  2: { rewrite Forall_map. eapply Forall_impl; [|exact Himgs].
       cbn beta. intros img Himg. split.
       - now rewrite length_map, chunks_length.
       - rewrite Forall_map.
         eapply Forall_impl; [|apply chunks_sizes, Himg].
         cbn beta. intros row Hrow. rewrite pad_row_length, Hrow.
         cbn. lia. }
  split; [reflexivity|].
  (* the columns axis *)
  cbn [firstn skipn app].
  assert (E3 : concat (map (@concat R)
                 (map (fun img => map (Torch.pad_row l r 0%R) (chunks H Wd img))
                      images))
               = concat (map (fun mid =>
                                concat (map (fun a => [a]) (repeat 0%R l) ++ mid
                                        ++ map (fun a => [a]) (repeat 0%R r)))
                             (map (map (fun a => [a])) allrows))).
  { rewrite concat_map_concat. f_equal.
    rewrite <- (map_map (chunks H Wd) (map (Torch.pad_row l r 0%R))).
    rewrite <- concat_map. fold allrows.
    rewrite map_map. apply map_ext. intros row.
    rewrite !concat_app, !concat_singletons. reflexivity. }
  rewrite E3.
  rewrite (unpad_axis_strip 3 left right _ Wd); try assumption.
  2: cbn; lia.
  2: reflexivity.
  2, 3: now rewrite length_map, repeat_length.
  2, 3: rewrite Forall_map; apply Forall_forall; intros a _; reflexivity.
  2: now rewrite length_map.
  2: { rewrite Forall_map. eapply Forall_impl; [|exact Hrows].
       cbn beta. intros row Hrow. split.
       - now rewrite length_map.
       - rewrite Forall_map. apply Forall_forall. intros a _. reflexivity. }
  cbn [firstn skipn app]. destruct x as [sx dx]. cbn [shape data] in *.
  rewrite Hs. do 2 f_equal.
  rewrite map_map.
  erewrite map_ext; [|intros row; apply concat_singletons].
  rewrite map_id. unfold allrows.
  rewrite <- concat_map_concat, map_map.
  erewrite map_ext_in.
  - rewrite map_id. apply (images_concat (mkTensor sx dx) B C H Wd Hwf Hs).
  - intros img Hin. rewrite Forall_forall in Himgs.
    apply concat_chunks. rewrite (Himgs _ Hin). reflexivity.
Qed.

End PadUnpad.

(** ** Running the methods *)

Section Runs.

Context {W : Type} {L : Layers W}.
Implicit Types (self : VariationalAutoEncoder W) (x y z : tensor).

Lemma bind_run {A B : Type} (m : M W A) (k : A -> M W B) self a self' :
  m self = (Some a, self') -> bind m k self = k a self'.
Proof. intros E. unfold bind. now rewrite E. Qed.

Lemma call_run (f : VariationalAutoEncoder W -> nn_Module W) x self y w' :
  f self x (modules self) = (Some y, w') ->
  call f x self = (Some y, set_modules self w').
Proof. intros E. unfold call. now rewrite E. Qed.

Lemma pad_input_run x self :
  pad_input x self
  = (Torch.pad x (pad_left self) (pad_right self) (pad_top self)
               (pad_bottom self) 0%R, self).
Proof. reflexivity. Qed.

Lemma unpad_output_run x self :
  unpad_output x self
  = (match unpad_axis 2 (pad_top self) (pad_bottom self) x with
     | Some y => unpad_axis 3 (pad_left self) (pad_right self) y
     | None => None
     end, self).
Proof.
  unfold unpad_output, bind, attr, lift, ret.
  destruct (unpad_axis 2 _ _ x) as [y|]; [|reflexivity].
  now destruct (unpad_axis 3 _ _ y).
Qed.

(** *** Frame rules *)

Lemma frame_refl self : frame self self.
Proof. now destruct self. Qed.

Lemma frame_set_modules self w : frame self (set_modules self w).
Proof. reflexivity. Qed.

Lemma frame_trans self1 self2 self3 :
  frame self1 self2 -> frame self2 self3 -> frame self1 self3.
Proof. unfold frame. intros E1 E2. rewrite E2, E1. reflexivity. Qed.

Lemma frame_plan self self' : frame self self' -> plan self' = plan self.
Proof. unfold frame. intros ->. reflexivity. Qed.

Lemma framed_ret {A : Type} (a : A) : framed (W:=W) (ret a).
Proof. intros self. apply frame_refl. Qed.

Lemma framed_attr {A : Type} (f : VariationalAutoEncoder W -> A) :
  framed (attr f).
Proof. intros self. apply frame_refl. Qed.

Lemma framed_lift {A : Type} (o : option A) : framed (W:=W) (lift o).
Proof. intros self. apply frame_refl. Qed.

Lemma framed_call (f : VariationalAutoEncoder W -> nn_Module W) x :
  framed (W:=W) (call f x).
Proof.
  intros self. unfold call.
  destruct (f self x (modules self)) as [r w']. apply frame_set_modules.
Qed.

Lemma framed_bind {A B : Type} (m : M W A) (k : A -> M W B) :
  framed m -> (forall a, framed (k a)) -> framed (bind m k).
Proof.
  intros Hm Hk self. unfold bind. specialize (Hm self).
  destruct (m self) as [[a|] self']; cbn in Hm; [|exact Hm].
  eapply frame_trans; [exact Hm|apply Hk].
Qed.

Create HintDb framed.

#[local] Hint Resolve framed_ret framed_attr framed_lift framed_call : framed.

Ltac framed_steps :=
  repeat (apply framed_bind; [|intros ?]); auto with framed.

Lemma framed_pad_input x : framed (W:=W) (pad_input x).
Proof. unfold pad_input. framed_steps. Qed.

Lemma framed_unpad_output x : framed (W:=W) (unpad_output x).
Proof. unfold unpad_output. framed_steps. Qed.

Lemma framed_encode x : framed (W:=W) (encode x).
Proof. unfold encode. framed_steps. Qed.

Lemma framed_decode z : framed (W:=W) (decode z).
Proof. unfold decode. framed_steps. Qed.

Lemma framed_forward x : framed (W:=W) (forward x).
Proof.
  unfold forward. apply framed_bind; [apply framed_encode|].
  intros [s d]. framed_steps.
Qed.

End Runs.

(** ** Shapes through the sub-modules *)

Section Shapes.

Context {W : Type} {L : Layers W}.

Lemma maps_nil (P : tensor -> Prop) : maps (W:=W) (Sequential []) P P.
Proof. intros x w Hx. now exists x, w. Qed.

Lemma maps_cons (f : nn_Module W) rest (P Q R : tensor -> Prop) :
  maps f P Q -> maps (Sequential rest) Q R ->
  maps (Sequential (f :: rest)) P R.
Proof.
  intros Hf Hrest x w Hx. destruct (Hf x w Hx) as (y & w' & E & Hy).
  cbn. rewrite E. now apply Hrest.
Qed.

Lemma maps_stateful (f : tensor -> W -> tensor * W) (P Q : tensor -> Prop) :
  (forall x w, P x -> Q (fst (f x w))) -> maps (stateful_module f) P Q.
Proof.
  intros Hf x w Hx. specialize (Hf x w Hx). unfold stateful_module.
  destruct (f x w) as [y w']. now exists y, w'.
Qed.

Lemma maps_pure (f : tensor -> tensor) (P Q : tensor -> Prop) :
  (forall x, P x -> Q (f x)) -> maps (W:=W) (pure_module f) P Q.
Proof. intros Hf x w Hx. exists (f x), w. split; [reflexivity|now apply Hf]. Qed.

Lemma maps_partial (f : tensor -> option tensor) (P Q : tensor -> Prop) :
  (forall x, P x -> exists y, f x = Some y /\ Q y) ->
  maps (W:=W) (partial_module f) P Q.
Proof.
  intros Hf x w Hx. destruct (Hf x Hx) as (y & E & Hy).
  exists y, w. unfold partial_module. now rewrite E.
Qed.

Lemma maps_CNNLayer cin cout k b h wd :
  maps (stateful_module (CNNLayer cin cout k))
       (shaped [b; Z.to_nat cin; h; wd]) (shaped [b; Z.to_nat cout; h; wd]).
Proof. apply maps_stateful. intros x w [Hwf Hs]. now apply CNNLayer_shape. Qed.

Lemma maps_MaxPool2d k b c h wd :
  0 < k ->
  maps (W:=W) (pure_module (MaxPool2d k k))
       (shaped [b; c; (Z.to_nat k * h)%nat; (Z.to_nat k * wd)%nat])
       (shaped [b; c; h; wd]).
Proof. intros Hk. apply maps_pure. intros x [Hwf Hs]. now apply MaxPool2d_shape. Qed.

Lemma maps_MLP depth din dhid dout b :
  maps (stateful_module (MLP depth din dhid dout))
       (shaped [b; Z.to_nat din]) (shaped [b; Z.to_nat dout]).
Proof. apply maps_stateful. intros x w [Hwf Hs]. now apply MLP_shape. Qed.

Lemma maps_DeCNNLayer cin cout k b h wd :
  0 < k ->
  maps (stateful_module (DeCNNLayer cin cout k k 0))
       (shaped [b; Z.to_nat cin; h; wd])
       (shaped [b; Z.to_nat cout; (Z.to_nat k * h)%nat; (Z.to_nat k * wd)%nat]).
Proof.
  intros Hk. apply maps_stateful. intros x w [Hwf Hs].
  now apply DeCNNLayer_shape.
Qed.

Lemma maps_STMNsampler s :
  maps (stateful_module STMNsampler) (shaped s) (shaped s).
Proof.
  apply maps_stateful. intros x w [Hwf Hs].
  destruct (STMNsampler_shape x w Hwf) as [Hwf' Hs']. split; congruence.
Qed.

Lemma maps_Flatten b d rest :
  maps (W:=W) (partial_module Torch.Flatten)
       (shaped (b :: d :: rest)) (shaped [b; numel (d :: rest)]).
Proof.
  apply maps_partial. intros [sx dx] [Hwf Hs]. cbn in Hs. subst sx.
  eexists. split; [reflexivity|]. split; [|reflexivity].
  unfold wf in *. cbn in *. lia.
Qed.

Lemma maps_Unflatten1 c h wd b :
  0 <= c -> 0 <= h -> 0 <= wd ->
  maps (W:=W) (partial_module (Torch.Unflatten1 c h wd))
       (shaped [b; (Z.to_nat c * Z.to_nat h * Z.to_nat wd)%nat])
       (shaped [b; Z.to_nat c; Z.to_nat h; Z.to_nat wd]).
Proof.
  intros Hc Hh Hw. apply maps_partial. intros [sx dx] [Hwf Hs].
  cbn in Hs. subst sx. unfold Torch.Unflatten1. cbn [shape data].
  destruct (Z.ltb_spec c 0); [lia|]. destruct (Z.ltb_spec h 0); [lia|].
  destruct (Z.ltb_spec wd 0); [lia|]. cbn [orb].
  rewrite Nat.eqb_refl. eexists. split; [reflexivity|].
  split; [|reflexivity]. unfold wf in *. cbn in *. lia.
Qed.

Lemma Sigmoid_shaped f s x : shaped s x -> shaped s (Torch.Sigmoid f x).
Proof.
  intros [Hwf Hs]. split; [|exact Hs].
  unfold wf in *. cbn. now rewrite length_map.
Qed.

Lemma view2_shaped s x (r c : Z) :
  0 <= r -> 0 <= c -> shaped s x ->
  numel s = (Z.to_nat r * Z.to_nat c)%nat ->
  exists y, Torch.view2 x r c = Some y /\
            shaped [Z.to_nat r; Z.to_nat c] y /\ data y = data x.
Proof.
  intros Hr Hc [Hwf Hs] Hn. unfold Torch.view2.
  destruct (Z.ltb_spec r 0); [lia|]. destruct (Z.ltb_spec c 0); [lia|].
  cbn [orb]. rewrite Hs, Hn, Nat.eqb_refl.
  eexists. split; [reflexivity|]. split; [|reflexivity].
  split; [|reflexivity]. unfold wf in *. cbn. rewrite Hwf, Hs, Hn. lia.
Qed.

End Shapes.

(** ** Softmax and label smoothing *)

Section Smoothing.

Local Open Scope R_scope.
Import Torch.

Lemma sum_list_cons a l : sum_list (a :: l) = a + sum_list l.
Proof. reflexivity. Qed.





Lemma softmax_row_length row : length (softmax_row row) = length row.
Proof. unfold softmax_row. now rewrite !length_map. Qed.



(** The smoothing, entry by entry. *)
Lemma smooth_data d nc :
  data (smooth d nc)
  = map (fun p => 0.99 * p + 0.01 * 1 / IZR nc) (data d).
Proof.
  unfold smooth, add, div_int, scale, ones_like. cbn [data shape].
  induction (data d) as [|p l IH]; cbn; [reflexivity|].
  now rewrite IH.
Qed.

Lemma smooth_shape d nc : shape (smooth d nc) = shape d.
Proof. reflexivity. Qed.


End Smoothing.

Section Rows.

Local Open Scope nat_scope.


Lemma rows_rank2 x N c :
  shape x = [N; c] -> Torch.rows x = chunks N c (data x).
Proof.
  intros Hs. unfold Torch.rows. rewrite Hs. cbn. now rewrite Nat.mul_1_r.
Qed.

Lemma rows_sizes x N c :
  shaped [N; c] x ->
  length (Torch.rows x) = N /\ Forall (fun r => length r = c) (Torch.rows x).
Proof.
  intros [Hwf Hs]. rewrite (rows_rank2 x N c Hs). split.
  - apply chunks_length.
  - apply chunks_sizes. unfold wf in Hwf. rewrite Hwf, Hs. cbn. lia.
Qed.

Lemma Softmax_shaped x N c :
  shaped [N; c] x -> shaped [N; c] (Torch.Softmax_dim1 x).
Proof.
  intros Hx. destruct (rows_sizes x N c Hx) as [Hn Hr].
  destruct Hx as [Hwf Hs]. split; [|exact Hs].
  unfold wf. cbn [Torch.Softmax_dim1 data shape]. rewrite Hs.
  rewrite (concat_uniform_length c).
  - rewrite length_map, Hn. cbn. lia.
  - rewrite Forall_map. eapply Forall_impl; [|exact Hr].
    cbn beta. intros r Hlen. now rewrite softmax_row_length.
Qed.

Lemma smooth_shaped s d nc : shaped s d -> shaped s (smooth d nc).
Proof.
  intros [Hwf Hs]. split; [|exact Hs].
  unfold wf in *. now rewrite smooth_data, length_map, smooth_shape.
Qed.


End Rows.

(** ** The forward pass of a constructed model *)

Section Forward.

Context {W : Type} {L : Layers W}.
Variables (h w nd nc : Z) (w0 : W).
Hypotheses (Hh : 0 < h) (Hw : 0 < w) (Hnd : 0 <= nd) (Hnc : 0 <= nc).

Local Abbreviation self := (init h w nd nc w0).
Local Abbreviation qh := (Z.to_nat (post_cnn_height self)).
Local Abbreviation qw := (Z.to_nat (post_cnn_width self)).

Lemma padded_dim_nat d :
  0 < d ->
  0 <= padded_dim d / total_scaling /\
  Z.to_nat (padded_dim d)
  = (8 * (4 * (2 * Z.to_nat (padded_dim d / total_scaling))))%nat.
Proof.
  intros Hd. pose proof (padded_dim_div d) as E.
  pose proof (padded_dim_bounds d) as B. unfold Py.floor_div in E.
  rewrite total_scaling_64 in *. lia.
Qed.

Lemma padded_split d :
  0 < d ->
  (Z.to_nat ((padded_dim d - d) / 2) + Z.to_nat d
   + Z.to_nat ((padded_dim d - d) - (padded_dim d - d) / 2))%nat
  = Z.to_nat (padded_dim d).
Proof.
  intros Hd. pose proof (padded_dim_bounds d) as B.
  pose proof (Z.div_mod (padded_dim d - d) 2 ltac:(lia)).
  pose proof (Z.mod_pos_bound (padded_dim d - d) 2 ltac:(lia)).
  lia.
Qed.

Lemma encoder_size_nat :
  numel [Z.to_nat nd; qh; qw] = Z.to_nat (post_cnn_encoder_size self).
Proof.
  destruct (padded_dim_nat h Hh) as [Ph _].
  destruct (padded_dim_nat w Hw) as [Pw _].
  change (post_cnn_encoder_size self)
    with (post_cnn_height self * post_cnn_width self * nd).
  rewrite init_post_cnn_height, init_post_cnn_width.
  rewrite !Z2Nat.inj_mul by lia. cbn [numel fold_right]. lia.
Qed.

Lemma encoder_maps B :
  maps (encoder self)
       (shaped [B; 1%nat; Z.to_nat (padded_dim h); Z.to_nat (padded_dim w)])
       (shaped [B; Z.to_nat (nd * nc)]).
Proof.
  destruct (padded_dim_nat h Hh) as [_ ->].
  destruct (padded_dim_nat w Hw) as [_ ->].
  change (encoder self) with
    (Sequential
      [ stateful_module (CNNLayer 1 64 3);
        pure_module (MaxPool2d 8 8);
        stateful_module (CNNLayer 64 256 3);
        pure_module (MaxPool2d 4 4);
        stateful_module (CNNLayer 256 nd 3);
        pure_module (MaxPool2d 2 2);
        partial_module Torch.Flatten;
        stateful_module
          (MLP 3 (post_cnn_encoder_size self) (nd * nc) (nd * nc)) ]).
  change (padded_dim h / total_scaling) with (post_cnn_height self).
  change (padded_dim w / total_scaling) with (post_cnn_width self).
  eapply maps_cons;
    [apply (maps_CNNLayer 1 64 3 B (8 * (4 * (2 * qh))) (8 * (4 * (2 * qw))))|].
  eapply maps_cons;
    [apply (maps_MaxPool2d 8 B (Z.to_nat 64) (4 * (2 * qh)) (4 * (2 * qw)));
     lia|].
  eapply maps_cons;
    [apply (maps_CNNLayer 64 256 3 B (4 * (2 * qh)) (4 * (2 * qw)))|].
  eapply maps_cons;
    [apply (maps_MaxPool2d 4 B (Z.to_nat 256) (2 * qh) (2 * qw)); lia|].
  eapply maps_cons;
    [apply (maps_CNNLayer 256 nd 3 B (2 * qh) (2 * qw))|].
  eapply maps_cons;
    [apply (maps_MaxPool2d 2 B (Z.to_nat nd) qh qw); lia|].
  eapply maps_cons;
    [apply (maps_Flatten B (Z.to_nat nd) [qh; qw])|].
  rewrite encoder_size_nat.
  eapply maps_cons; [apply maps_MLP|apply maps_nil].
Qed.

Lemma decoder_maps B :
  maps (decoder self)
       (shaped [B; Z.to_nat (nd * nc)])
       (shaped [B; 1%nat; Z.to_nat (padded_dim h); Z.to_nat (padded_dim w)]).
Proof.
  destruct (padded_dim_nat h Hh) as [Ph ->].
  destruct (padded_dim_nat w Hw) as [Pw ->].
  change (decoder self) with
    (Sequential
      [ stateful_module
          (MLP 3 (nd * nc) (nd * nc) (post_cnn_encoder_size self));
        partial_module
          (Torch.Unflatten1 nd (post_cnn_height self) (post_cnn_width self));
        stateful_module (DeCNNLayer nd 256 2 2 0);
        stateful_module (DeCNNLayer 256 64 4 4 0);
        stateful_module (DeCNNLayer 64 1 8 8 0);
        pure_module (Torch.Sigmoid sigmoid) ]).
  change (padded_dim h / total_scaling) with (post_cnn_height self) in *.
  change (padded_dim w / total_scaling) with (post_cnn_width self) in *.
  eapply maps_cons; [apply maps_MLP|].
  rewrite <- encoder_size_nat.
  replace (numel [Z.to_nat nd; qh; qw])
    with (Z.to_nat nd * qh * qw)%nat by (cbn; lia).
  eapply maps_cons; [apply maps_Unflatten1; assumption|].
  eapply maps_cons; [apply (maps_DeCNNLayer nd 256 2 B qh qw); lia|].
  eapply maps_cons;
    [apply (maps_DeCNNLayer 256 64 4 B (2 * qh) (2 * qw)); lia|].
  eapply maps_cons;
    [apply (maps_DeCNNLayer 64 1 8 B (4 * (2 * qh)) (4 * (2 * qw))); lia|].
  eapply maps_cons; [|apply maps_nil].
  apply maps_pure. intros x. apply Sigmoid_shaped.
Qed.

Lemma bind_attr {A B : Type} (f : VariationalAutoEncoder W -> A)
      (k : A -> M W B) (s : VariationalAutoEncoder W) :
  bind (attr f) k s = k (f s) s.
Proof. reflexivity. Qed.

Lemma bind_lift {A B : Type} (o : option A) (a : A)
      (k : A -> M W B) (s : VariationalAutoEncoder W) :
  o = Some a -> bind (lift o) k s = k a s.
Proof. intros ->. reflexivity. Qed.

(** [encode] on a tensor of the construction dimensions: the logits the
    encoder produces, the sample drawn, and the two tensors returned. *)
Lemma encode_run x B :
  shaped [B; 1%nat; Z.to_nat h; Z.to_nat w] x ->
  exists logits smp w2,
    shaped [Z.to_nat (Z.of_nat B * nd); Z.to_nat nc] logits /\
    shaped [Z.to_nat (Z.of_nat B * nd); Z.to_nat nc] smp /\
    encode x self
    = (Some (mkTensor [B; Z.to_nat (nd * nc)] (data smp),
             mkTensor [B; Z.to_nat (nd * nc)]
                      (data (smooth (Torch.Softmax_dim1 logits) nc))),
       set_modules self w2).
Proof.
  intros Hx. pose proof Hx as [Hwf Hs].
  destruct (init_pads_nonneg h w nd nc w0) as (Pt & Pb & Pl & Pr).
  (* pad *)
  destruct (Torch.pad x (pad_left self) (pad_right self) (pad_top self)
                      (pad_bottom self) 0%R) as [xp|] eqn:Epad.
  2: { rewrite (pad_rank4 _ _ _ _ _ _ _ _ _ _ Hs Pl Pr Pt Pb) in Epad.
       discriminate. }
  assert (Hxp : shaped [B; 1%nat; Z.to_nat (padded_dim h);
                        Z.to_nat (padded_dim w)] xp).
  { destruct (pad_wf _ _ _ _ _ _ _ _ _ _ _ Pl Pr Pt Pb Hwf Hs Epad)
      as [Hwfp Hsp].
    split; [exact Hwfp|]. rewrite Hsp.
    rewrite init_pad_top, init_pad_bottom, init_pad_left, init_pad_right.
    now rewrite !padded_split. }
  (* encoder *)
  destruct (encoder_maps B xp w0 Hxp) as (e & w1 & Eenc & He).
  (* view as rows of categories *)
  destruct (view2_shaped _ e (Z.of_nat B * nd) nc ltac:(lia) Hnc He)
    as (logits & Eview & Hlogits & _).
  { cbn [numel fold_right].
    rewrite Z2Nat.inj_mul, Z2Nat.inj_mul, Nat2Z.id by lia. lia. }
  pose proof (smooth_shaped _ _ nc (Softmax_shaped _ _ _ Hlogits)) as Hdist.
  (* sampler *)
  destruct (maps_STMNsampler _ _ w1 Hdist) as (smp & w2 & Esmp & Hsmp).
  assert (Hnum : numel [Z.to_nat (Z.of_nat B * nd); Z.to_nat nc]
                 = (Z.to_nat (Z.of_nat B) * Z.to_nat (nd * nc))%nat).
  { cbn [numel fold_right].
    rewrite Z2Nat.inj_mul, Z2Nat.inj_mul, Nat2Z.id by lia. lia. }
  destruct (view2_shaped _ smp (Z.of_nat B) (nd * nc) ltac:(lia) ltac:(lia)
                         Hsmp Hnum) as (s & Es & _ & _).
  destruct (view2_shaped _ _ (Z.of_nat B) (nd * nc) ltac:(lia) ltac:(lia)
                         Hdist Hnum) as (d & Ed & _ & _).
  exists logits, smp, w2. split; [exact Hlogits|]. split; [exact Hsmp|].
  assert (H0 : Torch.shape0 x = Z.of_nat B)
    by (unfold Torch.shape0; now rewrite Hs).
  unfold encode. rewrite H0.
  rewrite (bind_run _ _ _ xp self)
    by (rewrite pad_input_run; now rewrite Epad).
  rewrite (bind_run _ _ _ e (set_modules self w1))
    by (apply call_run; exact Eenc).
  rewrite !bind_attr.
  rewrite (bind_lift _ logits) by exact Eview.
  rewrite !bind_attr.
  rewrite (bind_run _ _ _ smp (set_modules (set_modules self w1) w2))
    by (apply call_run; exact Esmp).
  rewrite !bind_attr.
  rewrite (bind_lift _ s) by exact Es.
  rewrite !bind_attr.
  rewrite (bind_lift _ d) by exact Ed.
  unfold ret. f_equal. do 2 f_equal.
  - unfold Torch.view2 in Es.
    destruct (_ || _); [discriminate|].
    destruct (_ =? _)%nat; [|discriminate].
    injection Es as <-. now rewrite Nat2Z.id.
  - unfold Torch.view2 in Ed.
    destruct (_ || _); [discriminate|].
    destruct (_ =? _)%nat; [|discriminate].
    injection Ed as <-. now rewrite Nat2Z.id.
Qed.

(** [decode] on a latent vector of the construction dimensions. *)
Lemma decode_run z B w1 :
  shaped [B; Z.to_nat (nd * nc)] z ->
  exists y w2,
    decode z (set_modules self w1) = (Some y, set_modules self w2) /\
    shape y = [B; 1%nat; Z.to_nat h; Z.to_nat w].
Proof.
  intros Hz.
  destruct (init_pads_nonneg h w nd nc w0) as (Pt & Pb & Pl & Pr).
  destruct (decoder_maps B z w1 Hz) as (xp & w2 & Edec & Hwfp & Hsp).
  rewrite <- (padded_split h Hh), <- (padded_split w Hw) in Hsp.
  destruct (unpad_axis_shape 2 (pad_top self) (pad_bottom self) xp (Z.to_nat h))
    as (y2 & E2 & Hs2); try assumption.
  { rewrite Hsp. cbn. lia. }
  { rewrite Hsp. reflexivity. }
  rewrite Hsp in Hs2. cbn [firstn skipn app] in Hs2.
  destruct (unpad_axis_shape 3 (pad_left self) (pad_right self) y2 (Z.to_nat w))
    as (y & E3 & Hs3); try assumption.
  { rewrite Hs2. cbn. lia. }
  { rewrite Hs2. reflexivity. }
  rewrite Hs2 in Hs3. cbn [firstn skipn app] in Hs3.
  exists y, w2. split; [|exact Hs3].
  unfold decode.
  rewrite (bind_run _ _ _ xp (set_modules (set_modules self w1) w2))
    by (apply call_run; exact Edec).
  rewrite (bind_run _ _ _ y (set_modules self w2)); [reflexivity|].
  rewrite unpad_output_run.
  cbn [pad_top pad_bottom pad_left pad_right set_modules].
  now rewrite E2, E3.
Qed.

End Forward.

(** ** Tensors filled with one value *)

Lemma full_wf s v : wf (full s v).
Proof. unfold wf, full. cbn. apply repeat_length. Qed.

Lemma full_shaped s v : shaped s (full s v).
Proof. split; [apply full_wf|reflexivity]. Qed.

Lemma ramp_shaped s : shaped s (ramp s).
Proof.
  split; [|reflexivity]. unfold wf, ramp. cbn [data shape].
  now rewrite length_map, length_seq.
Qed.

(** ** Padding by nothing *)


Lemma padded_dim_fixed d : d mod total_scaling = 0 -> padded_dim d = d.
Proof.
  intros Hd. pose proof (padded_dim_bounds d) as B.
  pose proof (padded_dim_multiple d) as P.
  rewrite total_scaling_64 in *.
  apply Z.mod_divide in Hd; [|lia]. apply Z.mod_divide in P; [|lia].
  destruct Hd as [a Ha]. destruct P as [b Pb]. lia.
Qed.


(** ** The sampler of the spec *)

Section Sampler.

Local Open Scope R_scope.
Import Torch STMN.











End Sampler.

(** ** Slices, pads and their entries *)

Section SliceShapes.

Local Open Scope nat_scope.

Lemma in_firstn_skipn {A : Type} (n : nat) (l : list A) (a : A) :
  In a (firstn n l) \/ In a (skipn n l) -> In a l.
Proof.
  intros H. rewrite <- (firstn_skipn n l). apply in_or_app. exact H.
Qed.

Lemma chunks_In {A : Type} n sz (l r : list A) (a : A) :
  In r (chunks n sz l) -> In a r -> In a l.
Proof.
  revert l. induction n as [|n IH]; intros l Hr Ha; [contradiction|].
  destruct Hr as [<-|Hr].
  - apply (in_firstn_skipn sz). now left.
  - apply (in_firstn_skipn sz). right. now apply (IH _ Hr).
Qed.

Lemma slice_In {A : Type} start stop (l : list A) (a : A) :
  In a (Py_slice.slice start stop l) -> In a l.
Proof.
  unfold Py_slice.slice. intros H.
  apply (in_firstn_skipn (Z.to_nat (Py_slice.start_of (Z.of_nat (length l))
                                                      start))).
  right. apply (in_firstn_skipn _ _ _ (or_introl H)).
Qed.

Lemma slice_length {A : Type} start stop (l : list A) :
  length (Py_slice.slice start stop l)
  = Py_slice.slice_len start stop (length l).
Proof.
  unfold Py_slice.slice, Py_slice.slice_len.
  now rewrite length_firstn, length_skipn.
Qed.

(** What a slice [low:-high] or [low:] leaves of [n] entries. *)
Lemma slice_len_cut_both (low high : Z) n :
  (0 <= low)%Z -> (0 < high)%Z ->
  Py_slice.slice_len (Some low) (Some (- high)) n
  = n - Z.to_nat low - Z.to_nat high.
Proof.
  intros Hl Hh.
  unfold Py_slice.slice_len, Py_slice.start_of, Py_slice.stop_of,
    Py_slice.bound.
  destruct (Z.ltb_spec low 0); [lia|].
  destruct (Z.ltb_spec (- high) 0); lia.
Qed.

Lemma slice_len_cut_from (low : Z) n :
  (0 <= low)%Z ->
  Py_slice.slice_len (Some low) None n = n - Z.to_nat low.
Proof.
  intros Hl.
  unfold Py_slice.slice_len, Py_slice.start_of, Py_slice.stop_of,
    Py_slice.bound.
  destruct (Z.ltb_spec low 0); lia.
Qed.

Lemma numel_app s1 s2 : numel (s1 ++ s2) = numel s1 * numel s2.
Proof.
  unfold numel.
  induction s1 as [|a s1 IH]; cbn [app fold_right]; [lia|].
  rewrite IH. lia.
Qed.

Lemma numel_at k s m :
  numel (firstn k s ++ m :: skipn (S k) s)
  = numel (firstn k s) * (m * numel (skipn (S k) s)).
Proof. rewrite numel_app. reflexivity. Qed.

(** A slice along one dimension of a well-formed tensor is well-formed. *)
Lemma slice_dim_wf k start stop x :
  wf x -> k < length (shape x) ->
  exists y,
    Torch.slice_dim k start stop x = Some y /\ wf y /\
    shape y = firstn k (shape x)
              ++ Py_slice.slice_len start stop (nth k (shape x) 0)
              :: skipn (S k) (shape x) /\
    (forall p, In p (data y) -> In p (data x)).
Proof.
  intros Hwf Hk. unfold Torch.slice_dim.
  pose proof Hk as Hk'. apply Nat.ltb_lt in Hk'. rewrite Hk'.
  set (outer := numel (firstn k (shape x))).
  set (n := nth k (shape x) 0).
  set (inner := numel (skipn (S k) (shape x))).
  assert (Hdata : length (data x) = outer * (n * inner)).
  { unfold wf in Hwf. rewrite Hwf, <- (split_at k (shape x) Hk) at 1.
    apply numel_at. }
  pose proof (chunks_sizes outer (n * inner) (data x) Hdata) as Hblocks.
  eexists. split; [reflexivity|]. cbn [shape data]. repeat split.
  - unfold wf. cbn [shape data]. rewrite numel_at.
    fold outer inner.
    rewrite (concat_uniform_length (Py_slice.slice_len start stop n * inner)).
    + now rewrite length_map, chunks_length.
    + rewrite Forall_map. eapply Forall_impl; [|exact Hblocks].
      cbn beta. intros block Hblock.
      rewrite (concat_uniform_length inner).
      * now rewrite slice_length, chunks_length.
      * apply Forall_forall. intros piece Hpiece.
        pose proof (chunks_sizes n inner block Hblock) as Hpieces.
        rewrite Forall_forall in Hpieces. apply Hpieces.
        exact (slice_In start stop _ _ Hpiece).
  - intros p Hp. apply in_concat in Hp. destruct Hp as (c & Hc & Hpc).
    apply in_map_iff in Hc. destruct Hc as (block & <- & Hblock).
    apply in_concat in Hpc. destruct Hpc as (piece & Hpiece & Hp).
    apply (chunks_In _ _ _ _ _ Hblock).
    apply (chunks_In n inner block piece); [|exact Hp].
    exact (slice_In start stop _ _ Hpiece).
Qed.

(** One axis of [unpad_output] on a well-formed tensor: the axis loses
    [low + high] entries, or all it has when it has fewer. *)
Lemma unpad_axis_wf k (low high : Z) x :
  (0 <= low)%Z -> (0 <= high)%Z -> wf x -> k < length (shape x) ->
  exists y,
    unpad_axis k low high x = Some y /\ wf y /\
    shape y = firstn k (shape x)
              ++ (nth k (shape x) 0 - Z.to_nat low - Z.to_nat high)
              :: skipn (S k) (shape x) /\
    (forall p, In p (data y) -> In p (data x)).
Proof.
  intros Hl Hh Hwf Hk. unfold unpad_axis, unpad_branch_of.
  destruct (Z.gtb_spec (low + high) 0) as [Hpos|Hzero].
  - destruct (Z.gtb_spec high 0) as [Hhigh|Hhigh].
    + destruct (slice_dim_wf k (Some low) (Some (- high)) x Hwf Hk)
        as (y & E & Hy & Hs & Hin).
      exists y. rewrite slice_len_cut_both in Hs by lia. auto.
    + destruct (slice_dim_wf k (Some low) None x Hwf Hk)
        as (y & E & Hy & Hs & Hin).
      exists y. rewrite slice_len_cut_from in Hs by lia.
      replace (Z.to_nat high) with 0 by lia. rewrite Nat.sub_0_r. auto.
  - exists x. repeat split; auto.
    replace (Z.to_nat low) with 0 by lia.
    replace (Z.to_nat high) with 0 by lia.
    rewrite !Nat.sub_0_r. symmetry. now apply split_at.
Qed.

(** [unpad_output] on a well-formed rank-4 tensor, for non-negative
    pads. *)
Lemma unpad_rank4 (top bottom left right : Z) x B C H Wd :
  (0 <= top)%Z -> (0 <= bottom)%Z -> (0 <= left)%Z -> (0 <= right)%Z ->
  shaped [B; C; H; Wd] x ->
  exists y2 y,
    unpad_axis 2 top bottom x = Some y2 /\
    unpad_axis 3 left right y2 = Some y /\
    shaped [B; C; H - Z.to_nat top - Z.to_nat bottom;
            Wd - Z.to_nat left - Z.to_nat right] y /\
    (forall p, In p (data y) -> In p (data x)).
Proof.
  intros Ht Hb Hl Hr [Hwf Hs].
  destruct (unpad_axis_wf 2 top bottom x Ht Hb Hwf)
    as (y2 & E2 & Hwf2 & Hs2 & Hin2); [rewrite Hs; cbn; lia|].
  rewrite Hs in Hs2. cbn [firstn skipn nth app] in Hs2.
  destruct (unpad_axis_wf 3 left right y2 Hl Hr Hwf2)
    as (y & E3 & Hwf3 & Hs3 & Hin3); [rewrite Hs2; cbn; lia|].
  rewrite Hs2 in Hs3. cbn [firstn skipn nth app] in Hs3.
  exists y2, y. repeat split; auto.
Qed.

End SliceShapes.

Section PadEntries.

Local Open Scope R_scope.
Import Torch.

Lemma sum_list_app l1 l2 : sum_list (l1 ++ l2) = sum_list l1 + sum_list l2.
Proof.
  induction l1 as [|a l1 IH].
  - change (sum_list l2 = 0 + sum_list l2). lra.
  - cbn [app]. rewrite !sum_list_cons, IH. lra.
Qed.

Lemma sum_list_concat ll : sum_list (concat ll) = sum_list (map sum_list ll).
Proof.
  induction ll as [|l ll IH]; [reflexivity|].
  cbn [concat map]. now rewrite sum_list_app, sum_list_cons, IH.
Qed.

Lemma sum_list_zeros n : sum_list (repeat 0 n) = 0.
Proof.
  induction n as [|n IH]; [reflexivity|].
  cbn [repeat]. rewrite sum_list_cons, IH. lra.
Qed.

Lemma sum_list_all_zero l : (forall a, In a l -> a = 0) -> sum_list l = 0.
Proof.
  induction l as [|a l IH]; intros H; [reflexivity|].
  rewrite sum_list_cons, (H a (or_introl eq_refl)), IH; [lra|].
  intros b Hb. apply H. now right.
Qed.

Lemma pad_row_sum l r row : sum_list (pad_row l r 0 row) = sum_list row.
Proof.
  unfold pad_row. rewrite !sum_list_app, !sum_list_zeros. lra.
Qed.

Lemma pad_image_sum l r t b H Wd img :
  length img = (H * Wd)%nat ->
  sum_list (pad_image l r t b 0 H Wd img) = sum_list img.
Proof.
  intros Himg. unfold pad_image, pad_rows.
  rewrite sum_list_concat, !map_app, !sum_list_app, map_map.
  rewrite !(sum_list_all_zero (map sum_list (repeat _ _))).
  - erewrite map_ext; [|intros row; apply pad_row_sum].
    rewrite <- sum_list_concat, concat_chunks by exact Himg. lra.
  - intros a Ha. apply in_map_iff in Ha. destruct Ha as (row & <- & Hrow).
    apply repeat_spec in Hrow. subst row. apply sum_list_zeros.
  - intros a Ha. apply in_map_iff in Ha. destruct Ha as (row & <- & Hrow).
    apply repeat_spec in Hrow. subst row. apply sum_list_zeros.
Qed.

(** Zero padding keeps the sum of the entries. *)
Lemma pad_sum x B C H Wd (left right top bottom : Z) y :
  shaped [B; C; H; Wd] x ->
  (0 <= left)%Z -> (0 <= right)%Z -> (0 <= top)%Z -> (0 <= bottom)%Z ->
  pad x left right top bottom 0 = Some y ->
  sum_list (data y) = sum_list (data x).
Proof.
  intros [Hwf Hs] Hl Hr Ht Hb Hy.
  rewrite (pad_rank4 _ _ _ _ _ _ _ _ _ _ Hs Hl Hr Ht Hb) in Hy.
  injection Hy as <-. cbn [data].
  pose proof (images_sizes x B C H Wd Hwf Hs) as Himgs.
  rewrite sum_list_concat, map_map.
  rewrite <- (images_concat x B C H Wd Hwf Hs) at 2.
  rewrite sum_list_concat. f_equal.
  apply map_ext_in. intros img Hin. rewrite Forall_forall in Himgs.
  apply pad_image_sum. now apply Himgs.
Qed.

(** Every entry of a zero-padded tensor is zero or an entry of the
    tensor, and every entry of the tensor is kept. *)
Lemma pad_entries x B C H Wd (left right top bottom : Z) y :
  shaped [B; C; H; Wd] x ->
  (0 <= left)%Z -> (0 <= right)%Z -> (0 <= top)%Z -> (0 <= bottom)%Z ->
  pad x left right top bottom 0 = Some y ->
  (forall p, In p (data y) -> p = 0 \/ In p (data x)) /\
  (forall p, In p (data x) -> In p (data y)).
Proof.
  intros [Hwf Hs] Hl Hr Ht Hb Hy.
  rewrite (pad_rank4 _ _ _ _ _ _ _ _ _ _ Hs Hl Hr Ht Hb) in Hy.
  injection Hy as <-. cbn [data].
  pose proof (images_sizes x B C H Wd Hwf Hs) as Himgs.
  rewrite Forall_forall in Himgs.
  split.
  - intros p Hp. apply in_concat in Hp. destruct Hp as (c & Hc & Hp).
    apply in_map_iff in Hc. destruct Hc as (img & <- & Himg).
    unfold pad_image, pad_rows in Hp. apply in_concat in Hp.
    destruct Hp as (row & Hrow & Hp).
    apply in_app_or in Hrow. destruct Hrow as [Hrow|Hrow].
    { apply repeat_spec in Hrow. subst row. left.
      now apply repeat_spec in Hp. }
    apply in_app_or in Hrow. destruct Hrow as [Hrow|Hrow].
    2: { apply repeat_spec in Hrow. subst row. left.
         now apply repeat_spec in Hp. }
    apply in_map_iff in Hrow. destruct Hrow as (r0 & <- & Hr0).
    unfold pad_row in Hp. apply in_app_or in Hp. destruct Hp as [Hp|Hp].
    { left. now apply repeat_spec in Hp. }
    apply in_app_or in Hp. destruct Hp as [Hp|Hp].
    2: { left. now apply repeat_spec in Hp. }
    right. apply (chunks_In _ _ _ _ _ Himg).
    now apply (chunks_In _ _ _ _ _ Hr0).
  - intros p Hp. rewrite <- (images_concat x B C H Wd Hwf Hs) in Hp.
    apply in_concat in Hp. destruct Hp as (img & Himg & Hp).
    apply in_concat. exists (pad_image (Z.to_nat left) (Z.to_nat right)
                               (Z.to_nat top) (Z.to_nat bottom) 0 H Wd img).
    split; [apply in_map, Himg|].
    rewrite <- (concat_chunks H Wd img (Himgs _ Himg)) in Hp.
    apply in_concat in Hp. destruct Hp as (row & Hrow & Hp).
    unfold pad_image, pad_rows. apply in_concat.
    exists (pad_row (Z.to_nat left) (Z.to_nat right) 0 row). split.
    + apply in_or_app. right. apply in_or_app. left. now apply in_map.
    + unfold pad_row. apply in_or_app. right. apply in_or_app. now left.
Qed.

End PadEntries.

Section PadUnpadAnySize.

Context {W : Type} {L : Layers W}.
Variables (h w nd nc : Z) (w0 : W).

Local Abbreviation self := (init h w nd nc w0).

(** The two halves of a total pad, as natural numbers. *)
Lemma pad_halves_nat :
  (Z.to_nat (pad_top self) + Z.to_nat (pad_bottom self))%nat
  = Z.to_nat (pad_height self) /\
  (Z.to_nat (pad_left self) + Z.to_nat (pad_right self))%nat
  = Z.to_nat (pad_width self).
Proof.
  destruct (init_pads_nonneg h w nd nc w0) as (Pt & Pb & Pl & Pr).
  change (pad_bottom self) with (pad_height self - pad_top self) in *.
  change (pad_right self) with (pad_width self - pad_left self) in *.
  lia.
Qed.

Lemma pad_total_positive :
  (pad_top self + pad_bottom self >? 0) = (pad_height self >? 0) /\
  (pad_left self + pad_right self >? 0) = (pad_width self >? 0) /\
  (pad_bottom self >? 0) = (pad_height self >? 0) /\
  (pad_right self >? 0) = (pad_width self >? 0).
Proof.
  change (pad_bottom self) with (pad_height self - pad_top self).
  change (pad_right self) with (pad_width self - pad_left self).
  change (pad_top self) with (pad_height self / 2).
  change (pad_left self) with (pad_width self / 2).
  pose proof (Z.div_mod (pad_height self) 2 ltac:(lia)).
  pose proof (Z.mod_pos_bound (pad_height self) 2 ltac:(lia)).
  pose proof (Z.div_mod (pad_width self) 2 ltac:(lia)).
  pose proof (Z.mod_pos_bound (pad_width self) 2 ltac:(lia)).
  repeat split;
    repeat match goal with
           | |- context [?a >? 0] => destruct (Z.gtb_spec a 0)
           end; (reflexivity || lia).
Qed.

End PadUnpadAnySize.

Lemma slice_dim_none k start stop x :
  Torch.slice_dim k start stop x = None <-> (length (shape x) <= k)%nat.
Proof.
  unfold Torch.slice_dim.
  destruct (Nat.ltb_spec k (length (shape x))); split;
    (discriminate || lia || reflexivity).
Qed.

Lemma slice_dim_rank k start stop x y :
  Torch.slice_dim k start stop x = Some y ->
  length (shape y) = length (shape x).
Proof.
  unfold Torch.slice_dim.
  destruct (Nat.ltb_spec k (length (shape x))) as [Hk|Hk]; [|discriminate].
  intros E. injection E as <-. cbn [shape].
  rewrite length_app, length_firstn.
  change (match shape x with [] => [] | _ :: l => skipn k l end)
    with (skipn (S k) (shape x)).
  change (length (?a :: ?l)) with (S (length l)).
  rewrite length_skipn. lia.
Qed.

(** ** The tensors [encode], [decode] and [forward] return *)

Section Outputs.

Local Open Scope R_scope.
Import Torch.

Lemma Sequential_ends_pure {W : Type} (l : list (nn_Module W))
      (g : tensor -> tensor) : forall x w z w',
  Sequential (l ++ [pure_module g]) x w = (Some z, w') ->
  exists y, z = g y.
Proof.
  induction l as [|f l IH]; intros x w z w' E.
  - cbn in E. injection E as <- _. now exists x.
  - cbn [app Sequential] in E.
    destruct (f x w) as [[y|] w1]; [|discriminate].
    exact (IH y w1 z w' E).
Qed.

(** The entries of a sigmoid-activated tensor lie where the sigmoid's
    values lie. *)
Lemma Sigmoid_entries (f : R -> R) y p :
  (forall v, 0 <= f v <= 1) -> In p (data (Sigmoid f y)) -> 0 <= p <= 1.
Proof.
  intros Hf. cbn [Sigmoid data]. rewrite in_map_iff. intros (v & <- & _).
  apply Hf.
Qed.

End Outputs.

Section ConstructedOutputs.

Local Open Scope R_scope.
Import Torch.

Context {W : Type} {L : Layers W}.
Variables (h w nd nc : Z) (w0 : W).
Hypotheses (Hh : (0 < h)%Z) (Hw : (0 < w)%Z)
           (Hnd : (0 < nd)%Z) (Hnc : (0 < nc)%Z).

Local Abbreviation self := (init h w nd nc w0).

Lemma latent_numel (B : nat) :
  numel [Z.to_nat (Z.of_nat B * nd); Z.to_nat nc]
  = numel [B; Z.to_nat (nd * nc)].
Proof.
  cbn [numel fold_right].
  rewrite Z2Nat.inj_mul, Z2Nat.inj_mul, Nat2Z.id by lia. lia.
Qed.

(** [encode] on an image of the construction dimensions, with what the
    returned tensors are made of. *)
Lemma encode_outputs x B :
  shaped [B; 1%nat; Z.to_nat h; Z.to_nat w] x ->
  exists logits s d w',
    shaped [Z.to_nat (Z.of_nat B * nd); Z.to_nat nc] logits /\
    encode x self = (Some (s, d), init h w nd nc w') /\
    shaped [B; Z.to_nat (nd * nc)] s /\
    shaped [B; Z.to_nat (nd * nc)] d /\
    data d = data (smooth (Softmax_dim1 logits) nc).
Proof.
  intros Hx.
  destruct (encode_run h w nd nc w0 Hh Hw ltac:(lia) ltac:(lia) x B Hx)
    as (logits & smp & w2 & Hlogits & Hsmp & Eenc).
  pose proof (smooth_shaped _ _ nc (Softmax_shaped _ _ _ Hlogits)) as Hdist.
  eexists logits, _, _, w2. split; [exact Hlogits|]. split; [exact Eenc|].
  repeat split.
  - destruct Hsmp as [Hwf Hs]. unfold wf in *. cbn [data shape].
    now rewrite Hwf, Hs, latent_numel.
  - destruct Hdist as [Hwf Hs]. unfold wf in *. cbn [data shape].
    now rewrite Hwf, Hs, latent_numel.
Qed.

(** [decode] on a latent vector of the construction dimensions: the
    image returned and the range of its entries. *)
Lemma decode_outputs z B :
  shaped [B; Z.to_nat (nd * nc)] z ->
  exists y self',
    decode z self = (Some y, self') /\
    shaped [B; 1%nat; Z.to_nat h; Z.to_nat w] y /\
    (forall p, In p (data y) -> 0 <= p <= 1).
Proof.
  intros Hz.
  destruct (init_pads_nonneg h w nd nc w0) as (Pt & Pb & Pl & Pr).
  destruct (decoder_maps h w nd nc w0 Hh Hw ltac:(lia) B z w0 Hz)
    as (xp & w2 & Edec & Hxp).
  assert (Hsig : forall p, In p (data xp) -> 0 <= p <= 1).
  { change (decoder self) with
      (Sequential
         ([ stateful_module
              (MLP 3 (nd * nc) (nd * nc) (post_cnn_encoder_size self));
            partial_module
              (Unflatten1 nd (post_cnn_height self) (post_cnn_width self));
            stateful_module (DeCNNLayer nd 256 2 2 0);
            stateful_module (DeCNNLayer 256 64 4 4 0);
            stateful_module (DeCNNLayer 64 1 8 8 0) ]
          ++ [pure_module (Sigmoid sigmoid)])) in Edec.
    destruct (Sequential_ends_pure _ _ _ _ _ _ Edec) as (y0 & ->).
    intros p. apply Sigmoid_entries, sigmoid_range. }
  destruct (unpad_rank4 _ _ _ _ xp _ _ _ _ Pt Pb Pl Pr Hxp)
    as (y2 & y & E2 & E3 & Hy & Hin).
  exists y, (set_modules self w2). split; [|split].
  - unfold decode.
    rewrite (bind_run _ _ _ xp (set_modules self w2))
      by (apply call_run; exact Edec).
    rewrite (bind_run _ _ _ y (set_modules self w2)); [reflexivity|].
    rewrite unpad_output_run.
    cbn [pad_top pad_bottom pad_left pad_right set_modules].
    now rewrite E2, E3.
  - destruct Hy as [Hwfy Hsy]. split; [exact Hwfy|]. rewrite Hsy.
    rewrite <- (padded_split h Hh), <- (padded_split w Hw).
    rewrite init_pad_top, init_pad_bottom, init_pad_left, init_pad_right.
    f_equal. f_equal. f_equal; [lia|]. f_equal. lia.
  - intros p Hp. apply Hsig, Hin, Hp.
Qed.

End ConstructedOutputs.

(** [forward] on an image of the construction dimensions: it returns what
    [encode] returns and [decode] of the sample. *)
Lemma forward_outputs {W : Type} {L : Layers W} (h w nd nc : Z) (w0 : W)
      (x : tensor) (B : nat) :
  0 < h -> 0 < w -> 0 < nd -> 0 < nc ->
  shaped [B; 1%nat; Z.to_nat h; Z.to_nat w] x ->
  exists s d self1 y self2,
    encode x (init h w nd nc w0) = (Some (s, d), self1) /\
    decode s self1 = (Some y, self2) /\
    forward x (init h w nd nc w0) = (Some (y, s, d), self2) /\
    shaped [B; Z.to_nat (nd * nc)] s /\
    shaped [B; Z.to_nat (nd * nc)] d /\
    shaped [B; 1%nat; Z.to_nat h; Z.to_nat w] y /\
    (forall p, In p (data y) -> (0 <= p <= 1)%R).
Proof.
  intros Hh Hw Hnd Hnc Hx.
  destruct (encode_outputs h w nd nc w0 Hh Hw Hnd Hnc x B Hx)
    as (logits & s & d & w' & _ & Eenc & Hs & Hd & _).
  destruct (decode_outputs h w nd nc w' Hh Hw Hnd s B Hs)
    as (y & self2 & Edec & Hy & Hrange).
  exists s, d, (init h w nd nc w'), y, self2.
  split; [exact Eenc|]. split; [exact Edec|]. split; [|auto].
  unfold forward. rewrite (bind_run _ _ _ _ _ Eenc).
  now rewrite (bind_run _ _ _ _ _ Edec).
Qed.

(** [F.pad] with four amounts refuses a tensor of rank below 2. *)
Lemma pad_low_rank x (left right top bottom : Z) v :
  (length (shape x) < 2)%nat -> Torch.pad x left right top bottom v = None.
Proof.
  unfold Torch.pad. rewrite <- (length_rev (shape x)).
  destruct (rev (shape x)) as [|a [|b s]]; cbn [length]; intros Hx;
    (reflexivity || lia).
Qed.

(** * The claims *)

(** The padded dimension is the least multiple of [total_scaling] at
    least the dimension, with the division read exactly. *)
Lemma padded_least_multiple_exact {W : Type} {L : Layers W}
        (h w nd nc : Z) (w0 : W) :
  let self := init h w nd nc w0 in
  total_scaling = 8 * 4 * 2 /\
  (padded_height self mod total_scaling = 0 /\
   padded_height self - total_scaling < h <= padded_height self /\
   (forall m, m mod total_scaling = 0 -> h <= m -> padded_height self <= m) /\
   post_cnn_height self * total_scaling = padded_height self) /\
  (padded_width self mod total_scaling = 0 /\
   padded_width self - total_scaling < w <= padded_width self /\
   (forall m, m mod total_scaling = 0 -> w <= m -> padded_width self <= m) /\
   post_cnn_width self * total_scaling = padded_width self).
Proof.
  intros self. split; [reflexivity|].
  unfold self.
  rewrite init_padded_height, init_padded_width,
    init_post_cnn_height, init_post_cnn_width.
  repeat split;
    solve [ apply padded_dim_multiple | apply padded_dim_bounds
          | apply padded_dim_least | apply padded_dim_div ].
Qed.

(** C2.  For positive image dimensions up to 2^53, on the object the
    constructor builds with its binary64 division, [padded_height] (resp.
    [padded_width]) is the smallest multiple of [total_scaling] = 8*4*2 =
    64 that is at least the dimension: it is a multiple, it lies within
    one [total_scaling] above the dimension, no smaller multiple is at
    least the dimension; and [post_cnn_height] (resp. [post_cnn_width])
    times [total_scaling] is exactly the padded dimension. *)
Theorem padded_is_least_multiple {W : Type} {L : Layers W}
        (h w nd nc : Z) (w0 : W) :
  0 < h <= 2 ^ 53 -> 0 < w <= 2 ^ 53 ->
  let self := init_b64 h w nd nc w0 in
  total_scaling = 8 * 4 * 2 /\
  (padded_height self mod total_scaling = 0 /\
   padded_height self - total_scaling < h <= padded_height self /\
   (forall m, m mod total_scaling = 0 -> h <= m -> padded_height self <= m) /\
   post_cnn_height self * total_scaling = padded_height self) /\
  (padded_width self mod total_scaling = 0 /\
   padded_width self - total_scaling < w <= padded_width self /\
   (forall m, m mod total_scaling = 0 -> w <= m -> padded_width self <= m) /\
   post_cnn_width self * total_scaling = padded_width self).
Proof.
  intros Hh Hw. rewrite (init_b64_exact h w nd nc w0 Hh Hw).
  apply padded_least_multiple_exact.
Qed.

Lemma padded_is_least_multiple_witness :
  let self := init_b64 (L:=zero_blocks) 100 130 4 8 tt in
  total_scaling = 8 * 4 * 2 /\
  (padded_height self mod total_scaling = 0 /\
   padded_height self - total_scaling < 100 <= padded_height self /\
   (forall m, m mod total_scaling = 0 -> 100 <= m -> padded_height self <= m) /\
   post_cnn_height self * total_scaling = padded_height self) /\
  (padded_width self mod total_scaling = 0 /\
   padded_width self - total_scaling < 130 <= padded_width self /\
   (forall m, m mod total_scaling = 0 -> 130 <= m -> padded_width self <= m) /\
   post_cnn_width self * total_scaling = padded_width self).
Proof.
  apply (padded_is_least_multiple (L:=zero_blocks) 100 130 4 8 tt); lia.
Defined.

(** Without the limit the statement fails.  An image height of 2^53 + 1
    divided by 64 lies halfway between two binary64 numbers and rounds to
    2^47, so the padded height is 2^53: it is below the image height, and
    the grid has 2^47 rows where 2^47 + 1 are needed. *)
Lemma padded_is_least_multiple_counterexample :
  let self := init_b64 (L:=zero_blocks) (2 ^ 53 + 1) 130 4 8 tt in
  padded_height self = 2 ^ 53 /\
  post_cnn_height self = 2 ^ 47 /\
  ~ (padded_height self - total_scaling < 2 ^ 53 + 1 <= padded_height self).
Proof.
  cbv zeta.
  assert (E : padded_height
                (init_b64 (L:=zero_blocks) (2 ^ 53 + 1) 130 4 8 tt)
              = 2 ^ 53) by reflexivity.
  split; [exact E|]. split; [reflexivity|]. rewrite E. lia.
Qed.




(** The pads and their split, with the division read exactly. *)
Lemma pads_split_exact {W : Type} {L : Layers W}
        (h w nd nc : Z) (w0 : W) :
  let self := init h w nd nc w0 in
  (0 <= pad_top self /\ 0 <= pad_bottom self /\
   0 <= pad_left self /\ 0 <= pad_right self) /\
  pad_top self = Py.floor_div (padded_height self - h) 2 /\
  pad_bottom self = (padded_height self - h) - pad_top self /\
  pad_top self + pad_bottom self = padded_height self - h /\
  pad_left self = Py.floor_div (padded_width self - w) 2 /\
  pad_right self = (padded_width self - w) - pad_left self /\
  pad_left self + pad_right self = padded_width self - w.
Proof.
  intros self. split; [apply init_pads_nonneg|].
  unfold self.
  rewrite init_pad_top, init_pad_bottom, init_pad_left, init_pad_right,
    init_padded_height, init_padded_width.
  unfold Py.floor_div. repeat split; lia.
Qed.

(** C4.  For positive image dimensions up to 2^53, on the object the
    constructor builds with its binary64 division, the four pad amounts
    are non-negative, [pad_top] is the floor half of [padded_height - h]
    and [pad_bottom] the rest, so they add up to [padded_height - h];
    likewise [pad_left] and [pad_right] for the width. *)
Theorem pads_split_total {W : Type} {L : Layers W}
        (h w nd nc : Z) (w0 : W) :
  0 < h <= 2 ^ 53 -> 0 < w <= 2 ^ 53 ->
  let self := init_b64 h w nd nc w0 in
  (0 <= pad_top self /\ 0 <= pad_bottom self /\
   0 <= pad_left self /\ 0 <= pad_right self) /\
  pad_top self = Py.floor_div (padded_height self - h) 2 /\
  pad_bottom self = (padded_height self - h) - pad_top self /\
  pad_top self + pad_bottom self = padded_height self - h /\
  pad_left self = Py.floor_div (padded_width self - w) 2 /\
  pad_right self = (padded_width self - w) - pad_left self /\
  pad_left self + pad_right self = padded_width self - w.
Proof.
  intros Hh Hw. rewrite (init_b64_exact h w nd nc w0 Hh Hw).
  apply pads_split_exact.
Qed.

Lemma pads_split_total_witness :
  let self := init_b64 (L:=zero_blocks) 100 130 4 8 tt in
  (0 <= pad_top self /\ 0 <= pad_bottom self /\
   0 <= pad_left self /\ 0 <= pad_right self) /\
  pad_top self = Py.floor_div (padded_height self - 100) 2 /\
  pad_bottom self = (padded_height self - 100) - pad_top self /\
  pad_top self + pad_bottom self = padded_height self - 100 /\
  pad_left self = Py.floor_div (padded_width self - 130) 2 /\
  pad_right self = (padded_width self - 130) - pad_left self /\
  pad_left self + pad_right self = padded_width self - 130.
Proof.
  apply (pads_split_total (L:=zero_blocks) 100 130 4 8 tt); lia.
Defined.

(** Without the limit the statement fails.  At an image height of
    2^53 + 1 the padded height is 2^53, the total pad is -1, and its
    floor half [pad_top] is -1: a negative pad amount. *)
Lemma pads_split_total_counterexample :
  let self := init_b64 (L:=zero_blocks) (2 ^ 53 + 1) 130 4 8 tt in
  pad_height self = -1 /\ pad_top self = -1 /\ pad_bottom self = 0 /\
  ~ (0 <= pad_top self).
Proof.
  cbv zeta.
  assert (E : pad_top (init_b64 (L:=zero_blocks) (2 ^ 53 + 1) 130 4 8 tt)
              = -1) by reflexivity.
  split; [reflexivity|]. split; [exact E|]. split; [reflexivity|].
  rewrite E. lia.
Qed.





(** C7.  The model built with image_height=100, image_width=130,
    n_distributions=4, n_categories=8 has padded_height=128,
    padded_width=192, pad_top=14, pad_bottom=14, pad_left=31,
    pad_right=31, post_cnn_height=2, post_cnn_width=3; and [forward] on an
    image of shape (2, 1, 100, 130) returns a reconstruction that is a
    well-formed tensor of shape (2, 1, 100, 130), a sample of shape
    (2, 32) and a distribution of shape (2, 32). *)
Theorem example_100_130 {W : Type} {L : Layers W} (w0 : W) (x : tensor) :
  shaped [2; 1; 100; 130]%nat x ->
  let self := init_b64 100 130 4 8 w0 in
  (padded_height self = 128 /\ padded_width self = 192 /\
   pad_top self = 14 /\ pad_bottom self = 14 /\
   pad_left self = 31 /\ pad_right self = 31 /\
   post_cnn_height self = 2 /\ post_cnn_width self = 3) /\
  exists reconstruction sample distribution self',
    forward x self = (Some (reconstruction, sample, distribution), self') /\
    shaped [2; 1; 100; 130]%nat reconstruction /\
    shaped [2; 32]%nat sample /\
    shaped [2; 32]%nat distribution.
Proof.
  intros Hx self. split; [repeat split|].
  unfold self.
  rewrite (init_b64_exact 100 130 4 8 w0 ltac:(lia) ltac:(lia)).
  destruct (forward_outputs 100 130 4 8 w0 x 2 ltac:(lia) ltac:(lia)
                            ltac:(lia) ltac:(lia) Hx)
    as (s & d & self1 & y & self2 & _ & _ & Efwd & Hs & Hd & Hy & _).
  exists y, s, d, self2. auto.
Qed.

Lemma example_100_130_witness :
  let x := ramp [2; 1; 100; 130]%nat in
  let self := init_b64 (L:=zero_blocks) 100 130 4 8 tt in
  (padded_height self = 128 /\ padded_width self = 192 /\
   pad_top self = 14 /\ pad_bottom self = 14 /\
   pad_left self = 31 /\ pad_right self = 31 /\
   post_cnn_height self = 2 /\ post_cnn_width self = 3) /\
  exists reconstruction sample distribution self',
    forward x self = (Some (reconstruction, sample, distribution), self') /\
    shaped [2; 1; 100; 130]%nat reconstruction /\
    shaped [2; 32]%nat sample /\
    shaped [2; 32]%nat distribution.
Proof.
  apply (example_100_130 (L:=zero_blocks) tt (ramp [2; 1; 100; 130]%nat)).
  apply ramp_shaped.
Defined.

(** C8.  The shape plan (padded_height, padded_width, pad_top, pad_bottom,
    pad_left, pad_right, post_cnn_height, post_cnn_width,
    post_cnn_encoder_size) and the latent configuration (n_distributions,
    n_categories, latent_size) are the same after [pad_input],
    [unpad_output], [encode], [decode] and [forward] as before, on every
    object and every argument, whether the call succeeds or fails. *)
Theorem plan_is_read_only {W : Type} {L : Layers W}
        (self : VariationalAutoEncoder W) (x : tensor) :
  plan (snd (pad_input x self)) = plan self /\
  plan (snd (unpad_output x self)) = plan self /\
  plan (snd (encode x self)) = plan self /\
  plan (snd (decode x self)) = plan self /\
  plan (snd (forward x self)) = plan self.
Proof.
  split; [apply frame_plan, framed_pad_input|].
  split; [apply frame_plan, framed_unpad_output|].
  split; [apply frame_plan, framed_encode|].
  split; [apply frame_plan, framed_decode|].
  apply frame_plan, framed_forward.
Qed.

(** C9.  For every construction the low pad is at most the high pad on
    both axes; a positive [pad_height] makes [pad_bottom] positive and a
    positive [pad_width] makes [pad_right] positive; so neither [if] of
    [unpad_output] takes its fallback slice [x[..., low:]]. *)
Theorem unpad_fallback_unreachable {W : Type} {L : Layers W}
        (h w nd nc : Z) (w0 : W) :
  let self := init h w nd nc w0 in
  pad_top self <= pad_bottom self /\
  pad_left self <= pad_right self /\
  (pad_height self > 0 -> pad_bottom self > 0) /\
  (pad_width self > 0 -> pad_right self > 0) /\
  unpad_branch_of (pad_top self) (pad_bottom self) <> SliceFrom /\
  unpad_branch_of (pad_left self) (pad_right self) <> SliceFrom.
Proof.
  intros self. unfold self.
  rewrite init_pad_top, init_pad_bottom, init_pad_left, init_pad_right,
    init_pad_height, init_pad_width.
  pose proof (Z.div_mod (padded_dim h - h) 2 ltac:(lia)).
  pose proof (Z.mod_pos_bound (padded_dim h - h) 2 ltac:(lia)).
  pose proof (Z.div_mod (padded_dim w - w) 2 ltac:(lia)).
  pose proof (Z.mod_pos_bound (padded_dim w - w) 2 ltac:(lia)).
  unfold unpad_branch_of.
  repeat split; try lia.
  - destruct (Z.gtb_spec ((padded_dim h - h) / 2
                          + (padded_dim h - h - (padded_dim h - h) / 2)) 0);
      [|discriminate].
    destruct (Z.gtb_spec (padded_dim h - h - (padded_dim h - h) / 2) 0);
      [discriminate|lia].
  - destruct (Z.gtb_spec ((padded_dim w - w) / 2
                          + (padded_dim w - w - (padded_dim w - w) / 2)) 0);
      [|discriminate].
    destruct (Z.gtb_spec (padded_dim w - w - (padded_dim w - w) / 2) 0);
      [discriminate|lia].
Qed.

Lemma unpad_fallback_unreachable_witness :
  let self := init (L:=zero_blocks) 100 130 4 8 tt in
  (pad_height self > 0 /\ pad_bottom self > 0) /\
  (pad_width self > 0 /\ pad_right self > 0) /\
  unpad_branch_of (pad_top self) (pad_bottom self) <> SliceFrom /\
  unpad_branch_of (pad_left self) (pad_right self) <> SliceFrom.
Proof.
  pose proof (unpad_fallback_unreachable (L:=zero_blocks) 100 130 4 8 tt)
    as (_ & _ & Hb & Hr & Hrows & Hcols).
  assert (Hph : pad_height (init (L:=zero_blocks) 100 130 4 8 tt) > 0)
    by reflexivity.
  assert (Hpw : pad_width (init (L:=zero_blocks) 100 130 4 8 tt) > 0)
    by reflexivity.
  exact (conj (conj Hph (Hb Hph)) (conj (conj Hpw (Hr Hpw)) (conj Hrows Hcols))).
Defined.

(** * Further properties of the code *)

(** ** The shape plan *)

(** Bounds of the pads, with the division read exactly. *)
Lemma pads_bounded_exact {W : Type} {L : Layers W} (h w nd nc : Z) (w0 : W) :
  let self := init h w nd nc w0 in
  (0 <= pad_height self < total_scaling /\
   pad_bottom self - pad_top self = pad_height self mod 2 /\
   0 <= pad_top self <= 31 /\ 0 <= pad_bottom self <= 32) /\
  (0 <= pad_width self < total_scaling /\
   pad_right self - pad_left self = pad_width self mod 2 /\
   0 <= pad_left self <= 31 /\ 0 <= pad_right self <= 32).
Proof.
  intros self. unfold self.
  rewrite init_pad_top, init_pad_bottom, init_pad_left, init_pad_right,
    init_pad_height, init_pad_width.
  pose proof (padded_dim_bounds h) as Bh.
  pose proof (padded_dim_bounds w) as Bw.
  rewrite total_scaling_64 in *.
  pose proof (Z.div_mod (padded_dim h - h) 2 ltac:(lia)).
  pose proof (Z.mod_pos_bound (padded_dim h - h) 2 ltac:(lia)).
  pose proof (Z.div_mod (padded_dim w - w) 2 ltac:(lia)).
  pose proof (Z.mod_pos_bound (padded_dim w - w) 2 ltac:(lia)).
  repeat split; lia.
Qed.

(** X1.  For positive image dimensions up to 2^53, on the object the
    constructor builds with its binary64 division, the total pad of an
    axis is between 0 and 63, its two halves differ by at most one (the
    high side takes the odd unit), the low half is at most 31 and the high
    half at most 32. *)
Theorem pads_bounded {W : Type} {L : Layers W} (h w nd nc : Z) (w0 : W) :
  0 < h <= 2 ^ 53 -> 0 < w <= 2 ^ 53 ->
  let self := init_b64 h w nd nc w0 in
  (0 <= pad_height self < total_scaling /\
   pad_bottom self - pad_top self = pad_height self mod 2 /\
   0 <= pad_top self <= 31 /\ 0 <= pad_bottom self <= 32) /\
  (0 <= pad_width self < total_scaling /\
   pad_right self - pad_left self = pad_width self mod 2 /\
   0 <= pad_left self <= 31 /\ 0 <= pad_right self <= 32).
Proof.
  intros Hh Hw. rewrite (init_b64_exact h w nd nc w0 Hh Hw).
  apply pads_bounded_exact.
Qed.

(** An odd total pad (image height 1, 63 rows of padding) and an even
    one (image width 130, 62 columns). *)
Lemma pads_bounded_witness :
  let self := init_b64 (L:=zero_blocks) 1 130 4 8 tt in
  (0 <= pad_height self < total_scaling /\
   pad_bottom self - pad_top self = pad_height self mod 2 /\
   0 <= pad_top self <= 31 /\ 0 <= pad_bottom self <= 32) /\
  (0 <= pad_width self < total_scaling /\
   pad_right self - pad_left self = pad_width self mod 2 /\
   0 <= pad_left self <= 31 /\ 0 <= pad_right self <= 32).
Proof.
  apply (pads_bounded (L:=zero_blocks) 1 130 4 8 tt); lia.
Defined.

(** X2.  A model constructed for the padded size of another one has the
    same padded and post-convolution dimensions and pads nothing: padding
    to a multiple of [total_scaling] is idempotent. *)
Theorem plan_of_padded_size {W : Type} {L : Layers W}
        (h w nd nc : Z) (w0 : W) :
  let self := init h w nd nc w0 in
  let self' := init (padded_height self) (padded_width self) nd nc w0 in
  padded_height self' = padded_height self /\
  padded_width self' = padded_width self /\
  post_cnn_height self' = post_cnn_height self /\
  post_cnn_width self' = post_cnn_width self /\
  post_cnn_encoder_size self' = post_cnn_encoder_size self /\
  pad_top self' = 0 /\ pad_bottom self' = 0 /\
  pad_left self' = 0 /\ pad_right self' = 0.
Proof.
  intros self self'.
  assert (Eh : padded_height self' = padded_height self)
    by (unfold self', self; rewrite !init_padded_height;
        apply padded_dim_fixed, padded_dim_multiple).
  assert (Ew : padded_width self' = padded_width self)
    by (unfold self', self; rewrite !init_padded_width;
        apply padded_dim_fixed, padded_dim_multiple).
  assert (Eph : post_cnn_height self' = post_cnn_height self)
    by (change (padded_height self' / total_scaling
                = padded_height self / total_scaling); now rewrite Eh).
  assert (Epw : post_cnn_width self' = post_cnn_width self)
    by (change (padded_width self' / total_scaling
                = padded_width self / total_scaling); now rewrite Ew).
  assert (Et : pad_top self' = 0)
    by (change ((padded_height self' - padded_height self) / 2 = 0);
        now rewrite Eh, Z.sub_diag).
  assert (El : pad_left self' = 0)
    by (change ((padded_width self' - padded_width self) / 2 = 0);
        now rewrite Ew, Z.sub_diag).
  repeat split; try assumption.
  - change (post_cnn_height self' * post_cnn_width self' * nd
            = post_cnn_height self * post_cnn_width self * nd).
    now rewrite Eph, Epw.
  - change (padded_height self' - padded_height self - pad_top self' = 0).
    rewrite Eh, Et. lia.
  - change (padded_width self' - padded_width self - pad_left self' = 0).
    rewrite Ew, El. lia.
Qed.

(** X3.  The padded and the post-convolution dimensions grow with the
    image dimension. *)
Theorem plan_monotone {W : Type} {L : Layers W}
        (h h' w w' nd nc : Z) (w0 : W) :
  h <= h' -> w <= w' ->
  padded_height (init h w nd nc w0) <= padded_height (init h' w' nd nc w0) /\
  padded_width (init h w nd nc w0) <= padded_width (init h' w' nd nc w0) /\
  post_cnn_height (init h w nd nc w0)
  <= post_cnn_height (init h' w' nd nc w0) /\
  post_cnn_width (init h w nd nc w0) <= post_cnn_width (init h' w' nd nc w0).
Proof.
  intros Hh Hw.
  rewrite !init_padded_height, !init_padded_width,
    !init_post_cnn_height, !init_post_cnn_width.
  assert (Ph : padded_dim h <= padded_dim h')
    by (apply padded_dim_least;
        [apply padded_dim_multiple|pose proof (padded_dim_bounds h'); lia]).
  assert (Pw : padded_dim w <= padded_dim w')
    by (apply padded_dim_least;
        [apply padded_dim_multiple|pose proof (padded_dim_bounds w'); lia]).
  rewrite total_scaling_64.
  repeat split; try assumption; apply Z.div_le_mono; lia.
Qed.

Lemma plan_monotone_witness :
  padded_height (init (L:=zero_blocks) 100 130 4 8 tt)
  <= padded_height (init (L:=zero_blocks) 129 130 4 8 tt) /\
  padded_width (init (L:=zero_blocks) 100 130 4 8 tt)
  <= padded_width (init (L:=zero_blocks) 129 130 4 8 tt) /\
  post_cnn_height (init (L:=zero_blocks) 100 130 4 8 tt)
  <= post_cnn_height (init (L:=zero_blocks) 129 130 4 8 tt) /\
  post_cnn_width (init (L:=zero_blocks) 100 130 4 8 tt)
  <= post_cnn_width (init (L:=zero_blocks) 129 130 4 8 tt).
Proof.
  apply (plan_monotone (L:=zero_blocks) 100 129 130 130 4 8 tt); lia.
Defined.

(** The post-convolution grid, with the division read exactly. *)
Lemma post_cnn_grid_exact {W : Type} {L : Layers W} (h w nd nc : Z) (w0 : W) :
  0 < h -> 0 < w ->
  let self := init h w nd nc w0 in
  1 <= post_cnn_height self /\ 1 <= post_cnn_width self /\
  post_cnn_height self = (h + 63) / 64 /\
  post_cnn_width self = (w + 63) / 64 /\
  post_cnn_encoder_size self * (total_scaling * total_scaling)
  = padded_height self * padded_width self * n_distributions self /\
  (0 < nd -> nd <= post_cnn_encoder_size self).
Proof.
  intros Hh Hw self. unfold self.
  change (post_cnn_encoder_size (init h w nd nc w0))
    with (post_cnn_height (init h w nd nc w0)
          * post_cnn_width (init h w nd nc w0) * nd).
  change (n_distributions (init h w nd nc w0)) with nd.
  rewrite init_post_cnn_height, init_post_cnn_width,
    init_padded_height, init_padded_width.
  pose proof (padded_dim_bounds h) as Bh.
  pose proof (padded_dim_bounds w) as Bw.
  pose proof (padded_dim_div h) as Dh.
  pose proof (padded_dim_div w) as Dw.
  unfold Py.floor_div in *. rewrite total_scaling_64 in *.
  set (qh := padded_dim h / 64) in *. set (qw := padded_dim w / 64) in *.
  assert (Qh : 1 <= qh) by lia. assert (Qw : 1 <= qw) by lia.
  repeat split; try assumption.
  - apply Z.div_unique with (r := h + 63 - 64 * qh); lia.
  - apply Z.div_unique with (r := w + 63 - 64 * qw); lia.
  - rewrite <- Dh, <- Dw. ring.
  - intros Hnd. assert (Hq : 1 <= qh * qw) by nia.
    rewrite <- (Z.mul_1_l nd) at 1. apply Z.mul_le_mono_nonneg_r; lia.
Qed.

(** X4.  For positive image dimensions up to 2^53, on the object the
    constructor builds with its binary64 division, the post-convolution
    grid has at least one row and one column, [post_cnn_height] is the
    ceiling of [image_height / 64] (and likewise the width), and the
    flattened size [post_cnn_encoder_size] times 64 * 64 is the padded
    area times [n_distributions]; with a positive [n_distributions] it is
    positive. *)
Theorem post_cnn_grid {W : Type} {L : Layers W} (h w nd nc : Z) (w0 : W) :
  0 < h <= 2 ^ 53 -> 0 < w <= 2 ^ 53 ->
  let self := init_b64 h w nd nc w0 in
  1 <= post_cnn_height self /\ 1 <= post_cnn_width self /\
  post_cnn_height self = (h + 63) / 64 /\
  post_cnn_width self = (w + 63) / 64 /\
  post_cnn_encoder_size self * (total_scaling * total_scaling)
  = padded_height self * padded_width self * n_distributions self /\
  (0 < nd -> nd <= post_cnn_encoder_size self).
Proof.
  intros Hh Hw. rewrite (init_b64_exact h w nd nc w0 Hh Hw).
  apply post_cnn_grid_exact; lia.
Qed.

Lemma post_cnn_grid_witness :
  let self := init_b64 (L:=zero_blocks) 100 130 4 8 tt in
  1 <= post_cnn_height self /\ 1 <= post_cnn_width self /\
  post_cnn_height self = (100 + 63) / 64 /\
  post_cnn_width self = (130 + 63) / 64 /\
  post_cnn_encoder_size self * (total_scaling * total_scaling)
  = padded_height self * padded_width self * n_distributions self /\
  4 <= post_cnn_encoder_size self.
Proof.
  pose proof (post_cnn_grid (L:=zero_blocks) 100 130 4 8 tt
                ltac:(lia) ltac:(lia)) as (A & B & C & D & E & F).
  exact (conj A (conj B (conj C (conj D (conj E (F ltac:(lia))))))).
Defined.

(** ** Padding and unpadding tensors of any size *)

(** The shape [pad_input] returns, with the division read exactly. *)
Lemma pad_input_shape_exact {W : Type} {L : Layers W} (h w nd nc : Z) (w0 : W)
        (x : tensor) (B C H Wd : nat) :
  shaped [B; C; H; Wd] x ->
  let self := init h w nd nc w0 in
  exists y,
    pad_input x self = (Some y, self) /\
    shaped [B; C; (H + Z.to_nat (pad_height self))%nat;
            (Wd + Z.to_nat (pad_width self))%nat] y.
Proof.
  intros Hx self. pose proof Hx as [Hwf Hs].
  destruct (init_pads_nonneg h w nd nc w0) as (Pt & Pb & Pl & Pr).
  destruct (pad_halves_nat h w nd nc w0) as [Eh Ew].
  pose proof (pad_rank4 x B C H Wd (pad_left self) (pad_right self)
                (pad_top self) (pad_bottom self) 0%R Hs Pl Pr Pt Pb) as Ey.
  rewrite pad_input_run, Ey.
  eexists. split; [reflexivity|].
  destruct (pad_wf x B C H Wd (pad_left self) (pad_right self)
                   (pad_top self) (pad_bottom self) 0%R _
                   Pl Pr Pt Pb Hwf Hs Ey) as [Hwfy Hsy].
  split; [exact Hwfy|]. rewrite Hsy. fold self in Eh, Ew.
  f_equal. f_equal. f_equal; [lia|]. f_equal. lia.
Qed.

(** X5.  For image dimensions up to 2^53, on a rank-4 tensor of any
    size, [pad_input] returns a well-formed tensor whose last two
    dimensions are larger by [pad_height] and [pad_width]; batch and
    channel dimensions, and the object, are unchanged. *)
Theorem pad_input_shape {W : Type} {L : Layers W} (h w nd nc : Z) (w0 : W)
        (x : tensor) (B C H Wd : nat) :
  0 < h <= 2 ^ 53 -> 0 < w <= 2 ^ 53 ->
  shaped [B; C; H; Wd] x ->
  let self := init_b64 h w nd nc w0 in
  exists y,
    pad_input x self = (Some y, self) /\
    shaped [B; C; (H + Z.to_nat (pad_height self))%nat;
            (Wd + Z.to_nat (pad_width self))%nat] y.
Proof.
  intros Hh Hw Hx. rewrite (init_b64_exact h w nd nc w0 Hh Hw).
  apply pad_input_shape_exact, Hx.
Qed.

(** A 5 by 7 tensor on the 100 by 130 object: 28 rows and 62 columns are
    added. *)
Lemma pad_input_shape_witness :
  let self := init_b64 (L:=zero_blocks) 100 130 4 8 tt in
  exists y,
    pad_input (ramp [2; 3; 5; 7]%nat) self = (Some y, self) /\
    shaped [2; 3; 33; 69]%nat y.
Proof.
  apply (pad_input_shape (L:=zero_blocks) 100 130 4 8 tt
           (ramp [2; 3; 5; 7]%nat) 2 3 5 7);
    [lia | lia | apply ramp_shaped].
Defined.

(** [pad_input] adds zeros only, with the division read exactly. *)
Lemma pad_input_adds_zeros_exact {W : Type} {L : Layers W}
        (h w nd nc : Z) (w0 : W) (x : tensor) (B C H Wd : nat) :
  shaped [B; C; H; Wd] x ->
  exists y,
    pad_input x (init h w nd nc w0) = (Some y, init h w nd nc w0) /\
    Torch.sum_list (data y) = Torch.sum_list (data x) /\
    (forall p, In p (data y) -> p = 0%R \/ In p (data x)) /\
    (forall p, In p (data x) -> In p (data y)).
Proof.
  intros Hx. pose proof Hx as [Hwf Hs].
  destruct (init_pads_nonneg h w nd nc w0) as (Pt & Pb & Pl & Pr).
  rewrite pad_input_run.
  pose proof (pad_rank4 x B C H Wd (pad_left (init h w nd nc w0))
                (pad_right (init h w nd nc w0)) (pad_top (init h w nd nc w0))
                (pad_bottom (init h w nd nc w0)) 0%R Hs Pl Pr Pt Pb) as Ey.
  rewrite Ey. eexists. split; [reflexivity|]. split.
  - exact (pad_sum _ _ _ _ _ _ _ _ _ _ Hx Pl Pr Pt Pb Ey).
  - exact (pad_entries _ _ _ _ _ _ _ _ _ _ Hx Pl Pr Pt Pb Ey).
Qed.

(** X6.  For image dimensions up to 2^53, [pad_input] adds zeros and
    nothing else: the sum of the entries is unchanged, every entry of the
    result is zero or an entry of the argument, and every entry of the
    argument is in the result. *)
Theorem pad_input_adds_zeros {W : Type} {L : Layers W}
        (h w nd nc : Z) (w0 : W) (x : tensor) (B C H Wd : nat) :
  0 < h <= 2 ^ 53 -> 0 < w <= 2 ^ 53 ->
  shaped [B; C; H; Wd] x ->
  exists y,
    pad_input x (init_b64 h w nd nc w0) = (Some y, init_b64 h w nd nc w0) /\
    Torch.sum_list (data y) = Torch.sum_list (data x) /\
    (forall p, In p (data y) -> p = 0%R \/ In p (data x)) /\
    (forall p, In p (data x) -> In p (data y)).
Proof.
  intros Hh Hw Hx. rewrite (init_b64_exact h w nd nc w0 Hh Hw).
  apply (pad_input_adds_zeros_exact h w nd nc w0 x B C H Wd Hx).
Qed.

Lemma pad_input_adds_zeros_witness :
  exists y,
    pad_input (ramp [2; 3; 5; 7]%nat)
              (init_b64 (L:=zero_blocks) 100 130 4 8 tt)
    = (Some y, init_b64 (L:=zero_blocks) 100 130 4 8 tt) /\
    Torch.sum_list (data y)
    = Torch.sum_list (data (ramp [2; 3; 5; 7]%nat)) /\
    (forall p, In p (data y) ->
               p = 0%R \/ In p (data (ramp [2; 3; 5; 7]%nat))) /\
    (forall p, In p (data (ramp [2; 3; 5; 7]%nat)) -> In p (data y)).
Proof.
  apply (pad_input_adds_zeros (L:=zero_blocks) 100 130 4 8 tt
           (ramp [2; 3; 5; 7]%nat) 2 3 5 7);
    [lia | lia | apply ramp_shaped].
Defined.

(** Padding then unpadding any rank-4 tensor, with the division read
    exactly. *)
Lemma unpad_after_pad_any_exact {W : Type} {L : Layers W}
        (h w nd nc : Z) (w0 : W) (x : tensor) (B C H Wd : nat) :
  shaped [B; C; H; Wd] x ->
  bind (pad_input x) unpad_output (init h w nd nc w0)
  = (Some x, init h w nd nc w0).
Proof.
  intros [Hwf Hs].
  destruct (init_pads_nonneg h w nd nc w0) as (Pt & Pb & Pl & Pr).
  destruct (unpad_pad x _ _ _ _ _ _ _ _ Pl Pr Pt Pb Hwf Hs)
    as (y & y2 & Ey & E2 & E3).
  rewrite (bind_run _ _ _ y (init h w nd nc w0))
    by (rewrite pad_input_run; now rewrite Ey).
  rewrite unpad_output_run. now rewrite E2, E3.
Qed.

(** X7.  For image dimensions up to 2^53, [unpad_output (pad_input x)]
    is [x] for every rank-4 tensor, whatever its batch, channel and
    spatial sizes: the round trip does not depend on the tensor matching
    the construction dimensions. *)
Theorem unpad_after_pad_any_size {W : Type} {L : Layers W}
        (h w nd nc : Z) (w0 : W) (x : tensor) (B C H Wd : nat) :
  0 < h <= 2 ^ 53 -> 0 < w <= 2 ^ 53 ->
  shaped [B; C; H; Wd] x ->
  bind (pad_input x) unpad_output (init_b64 h w nd nc w0)
  = (Some x, init_b64 h w nd nc w0).
Proof.
  intros Hh Hw Hx. rewrite (init_b64_exact h w nd nc w0 Hh Hw).
  apply (unpad_after_pad_any_exact h w nd nc w0 x B C H Wd Hx).
Qed.

Lemma unpad_after_pad_any_size_witness :
  bind (pad_input (ramp [2; 3; 5; 7]%nat)) unpad_output
       (init_b64 (L:=zero_blocks) 100 130 4 8 tt)
  = (Some (ramp [2; 3; 5; 7]%nat), init_b64 (L:=zero_blocks) 100 130 4 8 tt).
Proof.
  apply (unpad_after_pad_any_size (L:=zero_blocks) 100 130 4 8 tt
           (ramp [2; 3; 5; 7]%nat) 2 3 5 7);
    [lia | lia | apply ramp_shaped].
Defined.

(** X8.  On every rank-4 tensor [unpad_output] succeeds and returns a
    well-formed tensor whose last two dimensions are smaller by
    [pad_height] and [pad_width], or empty when the tensor has fewer rows
    or columns than the pad; every entry of the result is an entry of the
    argument, and the object is unchanged. *)
Theorem unpad_output_shape {W : Type} {L : Layers W}
        (h w nd nc : Z) (w0 : W) (x : tensor) (B C H Wd : nat) :
  shaped [B; C; H; Wd] x ->
  let self := init h w nd nc w0 in
  exists y,
    unpad_output x self = (Some y, self) /\
    shaped [B; C; (H - Z.to_nat (pad_height self))%nat;
            (Wd - Z.to_nat (pad_width self))%nat] y /\
    (forall p, In p (data y) -> In p (data x)).
Proof.
  intros Hx. cbv zeta.
  destruct (init_pads_nonneg h w nd nc w0) as (Pt & Pb & Pl & Pr).
  destruct (pad_halves_nat h w nd nc w0) as [Eh Ew].
  destruct (unpad_rank4 _ _ _ _ x B C H Wd Pt Pb Pl Pr Hx)
    as (y2 & y & E2 & E3 & Hy & Hin).
  exists y. rewrite unpad_output_run, E2, E3.
  split; [reflexivity|]. split; [|exact Hin].
  destruct Hy as [Hwfy Hsy]. split; [exact Hwfy|]. rewrite Hsy.
  f_equal. f_equal. f_equal; [lia|]. f_equal. lia.
Qed.

Lemma unpad_output_shape_witness :
  let self := init (L:=zero_blocks) 100 130 4 8 tt in
  exists y,
    unpad_output (full [2; 3; 5; 70]%nat 1%R) self = (Some y, self) /\
    shaped [2%nat; 3%nat; (5 - Z.to_nat (pad_height self))%nat;
            (70 - Z.to_nat (pad_width self))%nat] y /\
    (forall p, In p (data y) -> In p (data (full [2; 3; 5; 70]%nat 1%R))).
Proof.
  apply (unpad_output_shape (L:=zero_blocks) 100 130 4 8 tt
           (full [2; 3; 5; 70]%nat 1%R) 2 3 5 70).
  apply full_shaped.
Defined.

(** X9.  [unpad_output] raises exactly when an axis it has to slice is
    missing from the tensor: the height pad is positive and the tensor has
    fewer than three dimensions, or the width pad is positive and it has
    fewer than four.  With both pads zero it accepts every tensor. *)
Theorem unpad_output_raises {W : Type} {L : Layers W}
        (h w nd nc : Z) (w0 : W) (x : tensor) :
  let self := init h w nd nc w0 in
  fst (unpad_output x self) = None <->
  (0 < pad_height self /\ (length (shape x) < 3)%nat) \/
  (0 < pad_width self /\ (length (shape x) < 4)%nat).
Proof.
  cbv zeta. rewrite unpad_output_run. cbn [fst].
  destruct (pad_total_positive h w nd nc w0) as (E1 & E2 & E3 & E4).
  unfold unpad_axis, unpad_branch_of. rewrite E1, E2, E3, E4.
  destruct (Z.gtb_spec (pad_height (init h w nd nc w0)) 0) as [Hh|Hh];
    destruct (Z.gtb_spec (pad_width (init h w nd nc w0)) 0) as [Hw|Hw].
  - destruct (Torch.slice_dim 2 _ _ x) as [y2|] eqn:Ey2.
    + pose proof (slice_dim_rank _ _ _ _ _ Ey2) as Hr.
      assert (Hx : ~ (length (shape x) <= 2)%nat)
        by (rewrite <- slice_dim_none, Ey2; discriminate).
      rewrite slice_dim_none, Hr. lia.
    + apply slice_dim_none in Ey2. split; [intros _; left; lia|reflexivity].
  - destruct (Torch.slice_dim 2 _ _ x) as [y2|] eqn:Ey2.
    + assert (Hx : ~ (length (shape x) <= 2)%nat)
        by (rewrite <- slice_dim_none, Ey2; discriminate).
      split; [discriminate|lia].
    + apply slice_dim_none in Ey2. split; [intros _; left; lia|reflexivity].
  - rewrite slice_dim_none. lia.
  - split; [discriminate|lia].
Qed.

(** ** The forward pass *)

(** X10.  For every batch size, [encode] on images of the construction
    dimensions returns a sample and a distribution that are both
    well-formed tensors of shape (batch, latent_size). *)
Theorem encode_returns_latent {W : Type} {L : Layers W}
        (h w nd nc : Z) (w0 : W) (x : tensor) (B : nat) :
  0 < h -> 0 < w -> 0 < nd -> 0 < nc ->
  shaped [B; 1%nat; Z.to_nat h; Z.to_nat w] x ->
  let self := init h w nd nc w0 in
  exists sample distribution self',
    encode x self = (Some (sample, distribution), self') /\
    shaped [B; Z.to_nat (latent_size self)] sample /\
    shaped [B; Z.to_nat (latent_size self)] distribution.
Proof.
  intros Hh Hw Hnd Hnc Hx. cbv zeta.
  destruct (encode_outputs h w nd nc w0 Hh Hw Hnd Hnc x B Hx)
    as (logits & s & d & w' & _ & Eenc & Hs & Hd & _).
  exists s, d, (init h w nd nc w'). auto.
Qed.

Lemma encode_returns_latent_witness :
  let self := init (L:=zero_blocks) 100 130 4 8 tt in
  exists sample distribution self',
    encode (full [3; 1; 100; 130]%nat 0%R) self
    = (Some (sample, distribution), self') /\
    shaped [3%nat; Z.to_nat (latent_size self)] sample /\
    shaped [3%nat; Z.to_nat (latent_size self)] distribution.
Proof.
  apply (encode_returns_latent (L:=zero_blocks) 100 130 4 8 tt
           (full [3; 1; 100; 130]%nat 0%R) 3);
    [lia | lia | lia | lia | apply full_shaped].
Defined.

(** X13.  For image dimensions up to 2^53, [decode] maps every latent
    tensor of shape (batch, latent_size), whether or not it came from
    [encode], to a well-formed image of shape
    (batch, 1, image_height, image_width) whose entries lie between 0 and
    1, the ends included. *)
Theorem decode_returns_image {W : Type} {L : Layers W}
        (h w nd nc : Z) (w0 : W) (z : tensor) (B : nat) :
  0 < h <= 2 ^ 53 -> 0 < w <= 2 ^ 53 -> 0 < nd -> 0 < nc ->
  let self := init_b64 h w nd nc w0 in
  shaped [B; Z.to_nat (latent_size self)] z ->
  exists y self',
    decode z self = (Some y, self') /\
    shaped [B; 1%nat; Z.to_nat h; Z.to_nat w] y /\
    (forall p, In p (data y) -> (0 <= p <= 1)%R).
Proof.
  intros Hh Hw Hnd Hnc. rewrite (init_b64_exact h w nd nc w0 Hh Hw).
  cbv zeta. intros Hz.
  exact (decode_outputs h w nd nc w0 ltac:(lia) ltac:(lia) Hnd z B Hz).
Qed.

Lemma decode_returns_image_witness :
  let self := init_b64 (L:=zero_blocks) 100 130 4 8 tt in
  exists y self',
    decode (ramp [3; 32]%nat) self = (Some y, self') /\
    shaped [3; 1; 100; 130]%nat y /\
    (forall p, In p (data y) -> (0 <= p <= 1)%R).
Proof.
  apply (decode_returns_image (L:=zero_blocks) 100 130 4 8 tt
           (ramp [3; 32]%nat) 3);
    [lia | lia | lia | lia | apply ramp_shaped].
Defined.

(** X14.  For image dimensions up to 2^53 and every batch size,
    [forward] on images of the construction dimensions succeeds; the
    sample and the distribution it returns are those of [encode], its
    reconstruction is [decode] of that sample (not of the distribution);
    the three are well-formed tensors of shapes
    (batch, 1, image_height, image_width), (batch, latent_size) and
    (batch, latent_size), and the reconstruction's entries lie between 0
    and 1, the ends included. *)
Theorem forward_returns {W : Type} {L : Layers W}
        (h w nd nc : Z) (w0 : W) (x : tensor) (B : nat) :
  0 < h <= 2 ^ 53 -> 0 < w <= 2 ^ 53 -> 0 < nd -> 0 < nc ->
  shaped [B; 1%nat; Z.to_nat h; Z.to_nat w] x ->
  let self := init_b64 h w nd nc w0 in
  exists reconstruction sample distribution self1 self2,
    encode x self = (Some (sample, distribution), self1) /\
    decode sample self1 = (Some reconstruction, self2) /\
    forward x self = (Some (reconstruction, sample, distribution), self2) /\
    shaped [B; 1%nat; Z.to_nat h; Z.to_nat w] reconstruction /\
    shape reconstruction = shape x /\
    shaped [B; Z.to_nat (latent_size self)] sample /\
    shaped [B; Z.to_nat (latent_size self)] distribution /\
    (forall p, In p (data reconstruction) -> (0 <= p <= 1)%R).
Proof.
  intros Hh Hw Hnd Hnc Hx. rewrite (init_b64_exact h w nd nc w0 Hh Hw).
  cbv zeta.
  destruct (forward_outputs h w nd nc w0 x B ltac:(lia) ltac:(lia) Hnd Hnc Hx)
    as (s & d & self1 & y & self2 & Eenc & Edec & Efwd & Hs & Hd & Hy & Hr).
  exists y, s, d, self1, self2.
  split; [exact Eenc|]. split; [exact Edec|]. split; [exact Efwd|].
  split; [exact Hy|]. split.
  { destruct Hx as [_ Hsx]. destruct Hy as [_ Hsy]. congruence. }
  split; [exact Hs|]. split; [exact Hd|]. exact Hr.
Qed.

Lemma forward_returns_witness :
  let x := ramp [3; 1; 100; 130]%nat in
  let self := init_b64 (L:=zero_blocks) 100 130 4 8 tt in
  exists reconstruction sample distribution self1 self2,
    encode x self = (Some (sample, distribution), self1) /\
    decode sample self1 = (Some reconstruction, self2) /\
    forward x self = (Some (reconstruction, sample, distribution), self2) /\
    shaped [3; 1; 100; 130]%nat reconstruction /\
    shape reconstruction = shape x /\
    shaped [3; 32]%nat sample /\
    shaped [3; 32]%nat distribution /\
    (forall p, In p (data reconstruction) -> (0 <= p <= 1)%R).
Proof.
  apply (forward_returns (L:=zero_blocks) 100 130 4 8 tt
           (ramp [3; 1; 100; 130]%nat) 3);
    [lia | lia | lia | lia | apply ramp_shaped].
Defined.

(** X15.  [F.pad] refuses a tensor with fewer than two dimensions, so on
    such a tensor [pad_input], [encode] and [forward] all raise, on any
    object, before a sub-module is run: the object, with what its
    sub-modules own, is exactly as before. *)
Theorem low_rank_input_raises {W : Type} {L : Layers W}
        (self : VariationalAutoEncoder W) (x : tensor) :
  (length (shape x) < 2)%nat ->
  pad_input x self = (None, self) /\
  encode x self = (None, self) /\
  forward x self = (None, self).
Proof.
  intros Hx.
  assert (Epad : pad_input x self = (None, self)).
  { rewrite pad_input_run. f_equal. now apply pad_low_rank. }
  assert (Eenc : encode x self = (None, self)).
  { unfold encode, bind at 1. now rewrite Epad. }
  repeat split; try assumption.
  unfold forward, bind. now rewrite Eenc.
Qed.

Lemma low_rank_input_raises_witness :
  let self := init (L:=zero_blocks) 100 130 4 8 tt in
  pad_input (full [5]%nat 0%R) self = (None, self) /\
  encode (full [5]%nat 0%R) self = (None, self) /\
  forward (full [5]%nat 0%R) self = (None, self).
Proof.
  apply (low_rank_input_raises (L:=zero_blocks)
           (init (L:=zero_blocks) 100 130 4 8 tt) (full [5]%nat 0%R)).
  cbn. lia.
Defined.
